(** * yaml_to_json: order-preserving YAML to JSON conversion

    A shallow embedding of [tools/yaml_to_json.go].  The program reads a YAML
    document from standard input, turns the parsed node tree into Go values
    ([convertNode]) and prints them with [encoding/json], objects being
    written by [orderedMap.MarshalJSON] in source order. *)

From Stdlib Require Import ZArith NArith List String Ascii Bool Lia.
From Stdlib Require Import DecimalString DecimalFacts DecimalPos DecimalN DecimalZ.
From Stdlib Require Import Floats Uint63.
Import ListNotations.

Local Open Scope list_scope.
Local Open Scope string_scope.

(** ** Go runtime: results, errors and panics *)

(** A Go [error] value is identified with its message. *)
Definition error := string.

(** [(T, error)] return values. *)
Inductive result (A : Type) : Type :=
| Ok (a : A)
| Err (e : error).
Arguments Ok {A} a.
Arguments Err {A} e.

(** A call either returns or panics (a run-time error that unwinds the
    goroutine). *)
Inductive outcome (A : Type) : Type :=
| Ret (a : A)
| Panic (msg : string).
Arguments Ret {A} a.
Arguments Panic {A} msg.

(** What follows a call runs only if the call returned. *)
Definition bind_outcome {A B} (m : outcome A) (k : A -> outcome B) : outcome B :=
  match m with
  | Ret a => k a
  | Panic msg => Panic msg
  end.

(** The line feed, byte 10. *)
Definition newline : string := String "010" "".

Declare Scope go_scope.
Delimit Scope go_scope with go.
Notation "x <- m ;; k" := (bind_outcome m (fun x => k))
  (at level 61, m at next level, right associativity) : go_scope.

(** ** gopkg.in/yaml.v3: the node tree *)

Module yaml.

(** [type Kind uint32], the constants being [1 << iota].  The type is
    [Kind_t] here, the name [Kind] being kept for the field of [Node]. *)
Definition Kind_t := N.
Definition DocumentNode : Kind_t := 1%N.
Definition SequenceNode : Kind_t := 2%N.
Definition MappingNode : Kind_t := 4%N.
Definition ScalarNode : Kind_t := 8%N.
Definition AliasNode : Kind_t := 16%N.

(** [type Style uint32], a set of flags ([Style_t] here). *)
Definition Style_t := N.
Definition TaggedStyle : Style_t := 1%N.
Definition DoubleQuotedStyle : Style_t := 2%N.
Definition SingleQuotedStyle : Style_t := 4%N.
Definition LiteralStyle : Style_t := 8%N.
Definition FoldedStyle : Style_t := 16%N.
Definition FlowStyle : Style_t := 32%N.

(** The fields of [yaml.Node] the program and the scalar decoder read.
    [Content] holds the children: for a mapping, key and value nodes
    alternate. *)
#[local] Unset Elimination Schemes.
Inductive Node : Type :=
  mkNode (kind : Kind_t) (style : Style_t) (tag : string) (value : string)
         (content : list Node).

#[local] Set Elimination Schemes.

Definition Kind (n : Node) : Kind_t := let '(mkNode k _ _ _ _) := n in k.
Definition Style (n : Node) : Style_t := let '(mkNode _ s _ _ _) := n in s.
Definition Tag (n : Node) : string := let '(mkNode _ _ t _ _) := n in t.
Definition Value (n : Node) : string := let '(mkNode _ _ _ v _) := n in v.
Definition Content (n : Node) : list Node := let '(mkNode _ _ _ _ c) := n in c.

(** The zero value of [yaml.Node] ([var node yaml.Node]). *)
Definition zero : Node := mkNode 0%N 0%N "" "" [].

End yaml.

(** ** The value model: what [interface{}] holds after conversion *)

(** [type mapEntry struct { Key string; Value interface{} }], the type of
    the values being a parameter until [any] is defined. *)
Record mapEntry_of (V : Type) : Type := Build_mapEntry { Key : string; Value : V }.
Arguments Build_mapEntry {V} Key Value.
Arguments Key {V} m.
Arguments Value {V} m.

(** [type orderedMap struct { Entries []mapEntry }] *)
Record orderedMap_of (V : Type) : Type := Build_orderedMap { Entries : list (mapEntry_of V) }.
Arguments Build_orderedMap {V} Entries.
Arguments Entries {V} o.

(** The dynamic types that reach the encoder: [nil], [bool], the integer
    types ([int], [int64], [uint64]), [float64], [string], [[]interface{}]
    and [orderedMap]. *)
#[local] Unset Elimination Schemes.
Inductive any : Type :=
| ANil
| ABool (b : bool)
| AInt (i : Z)
| AFloat (f : float)
| AString (s : string)
| ASlice (items : list any)
| AOrderedMap (o : orderedMap_of any).
#[local] Set Elimination Schemes.

Definition mapEntry := mapEntry_of any.
Definition orderedMap := orderedMap_of any.

(** ** convertNode *)

Section Converter.

Import yaml.

(** [node.Decode(&out)] with [out] an [interface{}], for scalar nodes: the
    decoded value, or the decoder's error. *)
Variable Decode : Node -> result any.

Section Loops.

(** The recursive call, [convertNode] itself below. *)
Variable convert : Node -> outcome any.

(** Lines 78-82: [for i := 0; i < len(node.Content); i += 2] takes the
    children two at a time, [rest] being [node.Content[i:]].  Indexing
    [node.Content[i+1]] is a run-time error when the last key has no
    value next to it. *)
Fixpoint mappingLoop (rest : list Node) (entries : list mapEntry)
  : outcome (list mapEntry) :=
  match rest with
  | [] => Ret entries
  | keyNode :: [] => Panic "runtime error: index out of range"
  | keyNode :: valueNode :: rest' =>
      (v <- convert valueNode ;;
       mappingLoop rest' (entries ++ [Build_mapEntry (Value keyNode) v])%list)%go
  end.

(** Lines 85-88: [items[i] = convertNode(child)] for each child. *)
Fixpoint sequenceLoop (children : list Node) : outcome (list any) :=
  match children with
  | [] => Ret []
  | child :: children' =>
      (item <- convert child ;;
       items <- sequenceLoop children' ;;
       Ret (item :: items))%go
  end.

End Loops.

(** Lines 74-103: [switch node.Kind].  A mapping gives an [orderedMap] of
    its pairs, a sequence a slice of its converted children, a scalar what
    the decoder returns or, on its error, [node.Value]; a document is
    unwrapped and any other kind gives [nil]. *)
Fixpoint convertNode (node : Node) : outcome any :=
  match node with
  | mkNode kind _ _ value content =>
      if (kind =? MappingNode)%N then
        (entries <- mappingLoop convertNode content [] ;;
         Ret (AOrderedMap (Build_orderedMap entries)))%go
      else if (kind =? SequenceNode)%N then
        (items <- sequenceLoop convertNode content ;;
         Ret (ASlice items))%go
      else if (kind =? ScalarNode)%N then
        match Decode node with
        | Ok out => Ret out
        | Err _ => Ret (AString value)
        end
      else if (kind =? DocumentNode)%N then
        match content with
        | first :: _ => convertNode first
        | [] => Ret ANil
        end
      else Ret ANil
  end.

End Converter.

(** ** Go standard library: strconv, unicode/utf8 *)

(** A Go string is a sequence of bytes: [string] here, a byte being an
    [ascii] and its value an [N] below 256. *)
Definition byte_of (c : ascii) : N := N_of_ascii c.

Module utf8.

Definition RuneError : N := 65533.   (* U+FFFD *)
Definition RuneSelf : N := 128.

(** The [first] table of [unicode/utf8]: for a leading byte, the size of
    the sequence and the range its second byte must lie in; [None] for
    bytes that start no sequence. *)
Definition first (b : N) : option (nat * (N * N)) :=
  if (b <? 194)%N then None                       (* ASCII, continuation bytes, C0 C1 *)
  else if (b <=? 223)%N then Some (2%nat, (128, 191)%N)
  else if (b =? 224)%N then Some (3%nat, (160, 191)%N)
  else if (b <=? 236)%N then Some (3%nat, (128, 191)%N)
  else if (b =? 237)%N then Some (3%nat, (128, 159)%N)
  else if (b <=? 239)%N then Some (3%nat, (128, 191)%N)
  else if (b =? 240)%N then Some (4%nat, (144, 191)%N)
  else if (b <=? 243)%N then Some (4%nat, (128, 191)%N)
  else if (b =? 244)%N then Some (4%nat, (128, 143)%N)
  else None.

Definition continuation (b : N) : bool := ((128 <=? b) && (b <=? 191))%N.

(** [utf8.DecodeRuneInString]: the rune at the head of [s] and its width
    in bytes; [(RuneError, 1)] for an invalid or truncated sequence. *)
Definition DecodeRuneInString (s : string) : N * nat :=
  match s with
  | EmptyString => (RuneError, 0%nat)
  | String c0 s1 =>
      let s0 := byte_of c0 in
      if (s0 <? RuneSelf)%N then (s0, 1%nat)
      else
        match first s0 with
        | None => (RuneError, 1%nat)
        | Some (sz, (lo, hi)) =>
            if (String.length s <? sz)%nat then (RuneError, 1%nat)
            else
              match s1 with
              | EmptyString => (RuneError, 1%nat)
              | String c1 s2 =>
                  let b1 := byte_of c1 in
                  if ((b1 <? lo) || (hi <? b1))%N then (RuneError, 1%nat)
                  else if (sz <=? 2)%nat then
                    (N.lor (N.shiftl (N.land s0 31) 6) (N.land b1 63), 2%nat)
                  else
                    match s2 with
                    | EmptyString => (RuneError, 1%nat)
                    | String c2 s3 =>
                        let b2 := byte_of c2 in
                        if negb (continuation b2) then (RuneError, 1%nat)
                        else if (sz <=? 3)%nat then
                          (N.lor (N.shiftl (N.land s0 15) 12)
                             (N.lor (N.shiftl (N.land b1 63) 6) (N.land b2 63)),
                           3%nat)
                        else
                          match s3 with
                          | EmptyString => (RuneError, 1%nat)
                          | String c3 _ =>
                              let b3 := byte_of c3 in
                              if negb (continuation b3) then (RuneError, 1%nat)
                              else
                                (N.lor (N.shiftl (N.land s0 7) 18)
                                   (N.lor (N.shiftl (N.land b1 63) 12)
                                      (N.lor (N.shiftl (N.land b2 63) 6)
                                         (N.land b3 63))),
                                 4%nat)
                          end
                    end
              end
        end
  end.

End utf8.

Module strconv.

(** [strconv.AppendInt(dst, i, 10)]. *)
Definition FormatInt (i : Z) : string :=
  DecimalString.NilZero.string_of_int (Z.to_int i).

End strconv.

(** ** encoding/json: strings and compaction *)

Module json.

(** [const hex = "0123456789abcdef"], and the digit for a value below
    sixteen. *)
Definition hex : string := "0123456789abcdef".

(** The double quote, byte 34. *)
Definition quote : ascii := "034"%char.

Definition hexDigit (n : N) : ascii :=
  match String.get (N.to_nat n) hex with
  | Some c => c
  | None => "0"%char
  end.

(** [safeSet] holds the ASCII bytes written as they are: all from the
    space up, but the double quote and the backslash.  [htmlSafeSet] also
    leaves out the less-than sign, the greater-than sign and the
    ampersand. *)
Definition safeSet (b : N) : bool :=
  ((32 <=? b) && (b <? 128) && negb (b =? 34) && negb (b =? 92))%N.

Definition htmlSafeSet (b : N) : bool :=
  (safeSet b && negb (b =? 60) && negb (b =? 62) && negb (b =? 38))%N.

(** [\u00XX] for a byte. *)
Definition escapeByte (b : N) : string :=
  String "\" (String "u" (String "0" (String "0"
    (String (hexDigit (N.shiftr b 4)) (String (hexDigit (N.land b 15)) ""))))).

(** What [appendString] writes for the ASCII byte [c] that is not in the
    safe set in force. *)
Definition escapeASCII (c : ascii) : string :=
  let b := byte_of c in
  if ((b =? 92) || (b =? 34))%N then String "\" (String c "")
  else if (b =? 8)%N then "\b"
  else if (b =? 12)%N then "\f"
  else if (b =? 10)%N then "\n"
  else if (b =? 13)%N then "\r"
  else if (b =? 9)%N then "\t"
  else escapeByte b.

(** The loop of [appendString] over [src[i:]].  [skip] counts the bytes
    still to pass of a multi-byte rune decoded earlier ([i += size]);
    [copy] tells whether they are written (a rune kept as it is) or were
    replaced (U+2028 and U+2029). *)
Fixpoint appendStringLoop (escapeHTML : bool) (skip : nat) (copy : bool)
  (src : string) : string :=
  match src with
  | EmptyString => ""
  | String c rest =>
      match skip with
      | S skip' =>
          (if copy then String c "" else "")
            ++ appendStringLoop escapeHTML skip' copy rest
      | O =>
          let b := byte_of c in
          if (b <? utf8.RuneSelf)%N then
            (if htmlSafeSet b || (negb escapeHTML && safeSet b)
             then String c "" else escapeASCII c)
              ++ appendStringLoop escapeHTML 0 true rest
          else
            let '(r, size) := utf8.DecodeRuneInString src in
            if ((r =? utf8.RuneError)%N && (size =? 1)%nat)%bool then
              "\ufffd" ++ appendStringLoop escapeHTML 0 true rest
            else if ((r =? 8232) || (r =? 8233))%N then
              String "\" (String "u" (String "2" (String "0" (String "2"
                (String (hexDigit (N.land r 15)) "")))))
                ++ appendStringLoop escapeHTML (size - 1) false rest
            else
              String c "" ++ appendStringLoop escapeHTML (size - 1) true rest
      end
  end.

(** [appendString(dst, src, escapeHTML)]: the JSON string literal. *)
Definition appendString (src : string) (escapeHTML : bool) : string :=
  String quote (appendStringLoop escapeHTML 0 true src) ++ String quote "".

(** Where the scanner of [appendCompact] stands: between tokens, inside a
    string literal, or right after a backslash inside one. *)
Inductive scanState : Type := scanOutside | scanInString | scanInStringEsc.

Definition isSpace (b : N) : bool :=
  ((b =? 32) || (b =? 9) || (b =? 13) || (b =? 10))%N.

Definition scanStep (st : scanState) (b : N) : scanState :=
  match st with
  | scanOutside => if (b =? 34)%N then scanInString else scanOutside
  | scanInString =>
      if (b =? 34)%N then scanOutside
      else if (b =? 92)%N then scanInStringEsc
      else scanInString
  | scanInStringEsc => scanInString
  end.

(** Does [src] start with the UTF-8 form of U+2028 or U+2029
    ([E2 80 A8], [E2 80 A9])?  Then the last of the three bytes. *)
Definition lineSeparator (src : string) : option N :=
  match src with
  | String c0 (String c1 (String c2 _)) =>
      if ((byte_of c0 =? 226) && (byte_of c1 =? 128)
          && (N.land (byte_of c2) 254 =? 168))%N
      then Some (byte_of c2) else None
  | _ => None
  end.

(** The loop of [appendCompact(dst, src, escape)]: insignificant white
    space is dropped and, when [escape] is set, the HTML-unsafe bytes and
    the two line separators are rewritten as [\u] escapes.  The scanner's
    syntax check is left out: the texts compacted here are returned by
    [MarshalJSON] below, which assembles them from [json.Marshal] results
    and punctuation. *)
Fixpoint compactLoop (escape : bool) (st : scanState) (skip : nat)
  (src : string) : string :=
  match src with
  | EmptyString => ""
  | String c rest =>
      let b := byte_of c in
      let st' := scanStep st b in
      match skip with
      | S skip' => compactLoop escape st' skip' rest
      | O =>
          if (escape && ((b =? 60) || (b =? 62) || (b =? 38)))%N%bool then
            escapeByte b ++ compactLoop escape st' 0 rest
          else
            match (if escape then lineSeparator src else None) with
            | Some last =>
                String "\" (String "u" (String "2" (String "0" (String "2"
                  (String (hexDigit (N.land last 15)) "")))))
                  ++ compactLoop escape st' 2 rest
            | None =>
                match st with
                | scanOutside =>
                    if isSpace b then compactLoop escape st' 0 rest
                    else String c (compactLoop escape st' 0 rest)
                | _ => String c (compactLoop escape st' 0 rest)
                end
            end
      end
  end.

Definition appendCompact (src : string) (escape : bool) : string :=
  compactLoop escape scanOutside 0 src.

(** "clean up e-09 to e-9": a two-digit exponent with a leading zero
    loses the zero. *)
Definition cleanExponent (b : string) : string :=
  match rev (list_ascii_of_string b) with
  | c1 :: c2 :: c3 :: c4 :: front =>
      if (Ascii.eqb c4 "e" && (Ascii.eqb c3 "-" || Ascii.eqb c3 "+")
          && Ascii.eqb c2 "0")%bool
      then string_of_list_ascii (rev (c1 :: c3 :: c4 :: front))
      else b
  | _ => b
  end.

Section Floats.

(** [strconv.AppendFloat(b, f, fmt, -1, 64)]: the shortest decimal text
    that reads back as [f], in the format [fmt] (['f'], ['e'] or ['g']).
    Floating-point printing is not modelled; the encoder is stated for
    any such function. *)
Variable AppendFloat : float -> ascii -> string.

(** [floatEncoder.encode] for [float64]; the cutoffs are the [float64]
    values nearest to [1e-6] and [1e21]. *)
#[local] Set Warnings "-inexact-float".
Definition floatEncoder (f : float) : result string :=
  if (PrimFloat.is_infinity f || PrimFloat.is_nan f)%bool then
    Err ("json: unsupported value: " ++ AppendFloat f "g"%char)
  else
    let abs := PrimFloat.abs f in
    let fmt :=
      if (negb (PrimFloat.eqb abs 0%float)
          && (PrimFloat.ltb abs 1e-6%float || PrimFloat.leb 1e21%float abs))%bool
      then "e"%char else "f"%char in
    let b := AppendFloat f fmt in
    Ok (if Ascii.eqb fmt "e"%char then cleanExponent b else b).

End Floats.

End json.

(** ** orderedMap.MarshalJSON and the encoder *)

(** [orderedMap.MarshalJSON] calls [json.Marshal], and the encoder calls
    [MarshalJSON] for every [orderedMap] it meets: the two are defined
    together, the method first with the recursive call as a variable. *)

Section MarshalJSON.

(** [json.Marshal] on an entry's value. *)
Variable Marshal : any -> result string.

(** [json.Marshal(entry.Key)]: the key is a [string], which [json.Marshal]
    encodes with [appendString] under the options it sets,
    [encOpts{escapeHTML: true}]. *)
Definition MarshalKey (key : string) : result string :=
  Ok (json.appendString key true).

(** Lines 54-69: [for i, entry := range o.Entries], writing into [buf]. *)
Fixpoint entriesLoop (i : nat) (entries : list mapEntry) (buf : string)
  : result string :=
  match entries with
  | [] => Ok buf
  | entry :: entries' =>
      let buf := if (0 <? i)%nat then buf ++ "," else buf in
      match MarshalKey (Key entry) with
      | Err err => Err err
      | Ok keyBytes =>
          let buf := buf ++ keyBytes ++ ":" in
          match Marshal (Value entry) with
          | Err err => Err err
          | Ok valBytes => entriesLoop (S i) entries' (buf ++ valBytes)
          end
      end
  end.

(** Lines 51-72. *)
Definition MarshalJSON_with (o : orderedMap) : result string :=
  match entriesLoop 0 (Entries o) "{" with
  | Ok buf => Ok (buf ++ "}")
  | Err err => Err err
  end.

End MarshalJSON.

Section Encoder.

Variable AppendFloat : float -> ascii -> string.

Section Array.

Variable elemEnc : any -> result string.

(** [arrayEncoder.encode]: the elements, a comma before all but the
    first. *)
Fixpoint arrayLoop (i : nat) (items : list any) (buf : string)
  : result string :=
  match items with
  | [] => Ok buf
  | item :: items' =>
      let buf := if (0 <? i)%nat then buf ++ "," else buf in
      match elemEnc item with
      | Err err => Err err
      | Ok b => arrayLoop (S i) items' (buf ++ b)
      end
  end.

End Array.

(** [encodeState.reflectValue(v, opts)]: the encoder picked by the dynamic
    type of [v].  An [orderedMap] has a [MarshalJSON] method, so it goes
    through [marshalerEncoder]: the method's result is compacted under the
    caller's [escapeHTML] option, while the method itself encodes with
    [json.Marshal], that is with [escapeHTML] set. *)
Fixpoint reflectValue (escapeHTML : bool) (v : any) {struct v} : result string :=
  match v with
  | ANil => Ok "null"
  | ABool b => Ok (if b then "true" else "false")
  | AInt i => Ok (strconv.FormatInt i)
  | AFloat f => json.floatEncoder AppendFloat f
  | AString s => Ok (json.appendString s escapeHTML)
  | ASlice items =>
      match arrayLoop (reflectValue escapeHTML) 0 items "[" with
      | Ok buf => Ok (buf ++ "]")
      | Err err => Err err
      end
  | AOrderedMap o =>
      match MarshalJSON_with (reflectValue true) o with
      | Ok b => Ok (json.appendCompact b escapeHTML)
      | Err err =>
          Err ("json: error calling MarshalJSON for type main.orderedMap: " ++ err)
      end
  end.

(** [json.Marshal(v)]: [e.marshal(v, encOpts{escapeHTML: true})]. *)
Definition Marshal (v : any) : result string := reflectValue true v.

(** [func (o orderedMap) MarshalJSON() ([]byte, error)]. *)
Definition MarshalJSON (o : orderedMap) : result string :=
  MarshalJSON_with Marshal o.

(** [json.NewEncoder(w)] followed by [SetEscapeHTML(on)] and [Encode(v)]:
    what is written to [w], the encoding and a newline, or the error. *)
Definition Encode (escapeHTML : bool) (v : any) : result string :=
  match reflectValue escapeHTML v with
  | Ok b => Ok (b ++ newline)
  | Err err => Err err
  end.

End Encoder.

(** ** gopkg.in/yaml.v3: scalar resolution and [Unmarshal] *)

Module yamlv3.

Import yaml.

(** [strings.HasPrefix]. *)
Definition HasPrefix (s p : string) : bool := String.prefix p s.

Definition inList (s : string) (l : list string) : bool := existsb (String.eqb s) l.

(** [strings.Replace(in, "_", "", -1)]. *)
Fixpoint dropUnderscores (s : string) : string :=
match s with
| EmptyString => ""
| String c rest =>
    if Ascii.eqb c "_" then dropUnderscores rest
    else String c (dropUnderscores rest)
end.

Definition isDigit (c : ascii) : bool :=
((48 <=? byte_of c) && (byte_of c <=? 57))%N.

(** The value of a digit in [strconv.ParseUint]: [0-9], then the letters in
  either case. *)
Definition digitVal (c : ascii) : option N :=
let b := byte_of c in
if ((48 <=? b) && (b <=? 57))%N then Some (b - 48)%N
else if ((97 <=? b) && (b <=? 122))%N then Some (b - 97 + 10)%N
else if ((65 <=? b) && (b <=? 90))%N then Some (b - 65 + 10)%N
else None.

Fixpoint parseDigits (base : N) (s : string) (acc : N) : option N :=
match s with
| EmptyString => Some acc
| String c rest =>
    match digitVal c with
    | Some d => if (d <? base)%N then parseDigits base rest (acc * base + d)%N else None
    | None => None
    end
end.

(** [strconv.ParseUint(s, 0, 64)] before its range check, on a text without
  underscores: the base is read off the prefix ([0b], [0o], [0x], a bare
  leading [0] for octal). *)
Definition parseUintBase0 (s : string) : option N :=
match s with
| EmptyString => None
| String c0 rest =>
    if Ascii.eqb c0 "0" then
      match rest with
      | String c1 (String c2 rest') =>
          if (Ascii.eqb c1 "b" || Ascii.eqb c1 "B")%bool then parseDigits 2 (String c2 rest') 0
          else if (Ascii.eqb c1 "o" || Ascii.eqb c1 "O")%bool then parseDigits 8 (String c2 rest') 0
          else if (Ascii.eqb c1 "x" || Ascii.eqb c1 "X")%bool then parseDigits 16 (String c2 rest') 0
          else parseDigits 8 rest 0
      | _ => parseDigits 8 rest 0
      end
    else parseDigits 10 s 0
end.

(** [strconv.ParseInt(s, 0, 64)] then [strconv.ParseUint(s, 0, 64)]: the
  integer an [int64] or a [uint64] holds, if the text is one. *)
Definition parseInteger (s : string) : option Z :=
match s with
| EmptyString => None
| String c rest =>
    let signed :=
      if Ascii.eqb c "-" then
        match parseUintBase0 rest with
        | Some un => if (un <=? 2 ^ 63)%N then Some (- Z.of_N un)%Z else None
        | None => None
        end
      else
        match parseUintBase0 (if Ascii.eqb c "+" then rest else s) with
        | Some un => if (un <? 2 ^ 63)%N then Some (Z.of_N un) else None
        | None => None
        end in
    match signed with
    | Some i => Some i
    | None =>
        match parseUintBase0 s with
        | Some un => if (un <? 2 ^ 64)%N then Some (Z.of_N un) else None
        | None => None
        end
    end
end.

(** The digits [s] starts with, counted, and what follows them. *)
Fixpoint spanDigits (s : string) : nat * string :=
match s with
| String c rest =>
    if isDigit c then let '(n, tail) := spanDigits rest in (S n, tail)
    else (O, s)
| EmptyString => (O, "")
end.

Definition dropSign (s : string) : string :=
match s with
| String c rest => if (Ascii.eqb c "-" || Ascii.eqb c "+")%bool then rest else s
| EmptyString => s
end.

(** An exponent (e or E, an optional sign, digits) up to the end of the
  text, or the end itself. *)
Definition exponentOrEnd (s : string) : bool :=
match s with
| EmptyString => true
| String c rest =>
    if (Ascii.eqb c "e" || Ascii.eqb c "E")%bool then
      let '(n, tail) := spanDigits (dropSign rest) in
      ((0 <? n)%nat && String.eqb tail "")%bool
    else false
end.

(** The float form, the regular expression [yamlStyleFloat]: an optional
  sign; then digits with an optional point and further digits, or a point
  followed by digits; then an optional exponent. *)
Definition yamlStyleFloat (s : string) : bool :=
let '(n1, tail1) := spanDigits (dropSign s) in
match tail1 with
| String c rest =>
    if Ascii.eqb c "." then
      let '(n2, tail2) := spanDigits rest in
      (((0 <? n1)%nat || (0 <? n2)%nat) && exponentOrEnd tail2)%bool
    else ((0 <? n1)%nat && exponentOrEnd tail1)%bool
| EmptyString => (0 <? n1)%nat
end.

(** The texts the resolver's table lists for null, the booleans and the
    special floats. *)
Definition nullTexts : list string := [ ""; "~"; "null"; "Null"; "NULL" ].
Definition trueTexts : list string := [ "true"; "True"; "TRUE" ].
Definition falseTexts : list string := [ "false"; "False"; "FALSE" ].
Definition nanTexts : list string := [ ".nan"; ".NaN"; ".NAN" ].
Definition infTexts : list string :=
  [ ".inf"; ".Inf"; ".INF"; "+.inf"; "+.Inf"; "+.INF" ].
Definition negInfTexts : list string := [ "-.inf"; "-.Inf"; "-.INF" ].


(** A text that starts with a digit or a sign: only such a text is tried
    as an integer or a float in the usual notation. *)
Definition startsNumber (text : string) : bool :=
  match text with
  | String c _ => (isDigit c || Ascii.eqb c "-" || Ascii.eqb c "+")%bool
  | EmptyString => false
  end.



Definition strTag : string := "!!str".

(** [shortTag]: the [tag:yaml.org,2002:] prefix written as [!!]. *)
Definition shortTag (tag : string) : string :=
let long := "tag:yaml.org,2002:" in
if HasPrefix tag long
then "!!" ++ String.substring (String.length long) (String.length tag - String.length long) tag
else tag.

(** [indicatedString]: a scalar tagged [!!str], or an untagged one written
  in a quoted or block style, is a string as it stands. *)
Definition indicatedString (n : Node) : bool :=
((Kind n =? ScalarNode)%N
 && (String.eqb (shortTag (Tag n)) strTag
     || ((String.eqb (Tag n) "" || String.eqb (Tag n) "!")
         && negb (N.land (Style n)
                    (N.lor SingleQuotedStyle
                       (N.lor DoubleQuotedStyle (N.lor LiteralStyle FoldedStyle)))
                  =? 0)%N)))%bool.

Section Resolve.

(** [strconv.ParseFloat(s, 64)], [None] when it reports an error.
  Floating-point reading is not modelled. *)
Variable ParseFloat : string -> option float.

(** Modelled from the spec: the scalar-resolution rules of the parser
  (gopkg.in/yaml.v3, outside this repository), as section 4.1 lists them:
  null, [~] and the empty text give null; the true/false family gives a
  boolean; integer and float lexical forms give a number; otherwise the
  text itself is the value.  The texts of each family and the order of
  the tests follow the resolver's table ([resolveMap]) and its dispatch
  on the first byte. *)
Definition resolve (text : string) : any :=
  if inList text nullTexts then ANil
  else if inList text trueTexts then ABool true
  else if inList text falseTexts then ABool false
  else if inList text nanTexts then AFloat PrimFloat.nan
  else if inList text infTexts then AFloat PrimFloat.infinity
  else if inList text negInfTexts then AFloat PrimFloat.neg_infinity
  else
    match text with
    | EmptyString => ANil
    | String c _ =>
        if Ascii.eqb c "." then
          match ParseFloat text with
          | Some f => AFloat f
          | None => AString text
          end
        else if startsNumber text then
          let plain := dropUnderscores text in
          match parseInteger plain with
          | Some i => AInt i
          | None =>
              if yamlStyleFloat plain then
                match ParseFloat plain with
                | Some f => AFloat f
                | None => AString text
                end
              else AString text
          end
        else AString text
    end.

(** Modelled from the spec: [node.Decode(&out)] for a scalar node and an
  [interface{}] target (gopkg.in/yaml.v3, outside this repository).
  Quoting prevents resolution (section 8); any other scalar is resolved
  from its text. *)
Definition Decode (n : Node) : result any :=
if indicatedString n then Ok (AString (Value n))
else Ok (resolve (Value n)).

End Resolve.

Section Unmarshal.

(** The parser's next document: [Ok None] at the end of the stream, else
  the document node and the rest of the stream. *)
Variable parse : string -> result (option (Node * string)).

(** Modelled from the spec: [yaml.Unmarshal(data, &node)] (gopkg.in/yaml.v3,
  outside this repository), returning the node after the call and the
  error.  Section 6: of a stream, the first document is used; a stream
  without a document leaves [node] as it was. *)
Definition Unmarshal (data : string) (node : Node) : Node * option error :=
match parse data with
| Err err => (node, Some err)
| Ok None => (node, None)
| Ok (Some (doc, _)) => (doc, None)
end.

End Unmarshal.

End yamlv3.

(** ** The program: [run] and [main] *)

(** The process's streams.  [stdin] is what [io.ReadAll(os.Stdin)] returns;
    [stdout] and [stderr] collect what is written; [stdoutErr] is the error
    a write to standard output meets, if any. *)
Record World : Type := mkWorld {
  stdin : result string;
  stdout : string;
  stderr : string;
  stdoutErr : option error
}.

(** [os.Stdout.Write(b)]. *)
Definition writeStdout (b : string) (w : World) : World * option error :=
  match stdoutErr w with
  | Some err => (w, Some err)
  | None => (mkWorld (stdin w) (stdout w ++ b) (stderr w) (stdoutErr w), None)
  end.

(** [fmt.Fprintf(os.Stderr, ...)]. *)
Definition writeStderr (b : string) (w : World) : World :=
  mkWorld (stdin w) (stdout w) (stderr w ++ b) (stdoutErr w).

Section Program.

(** The libraries the program is linked with. *)
Variable Unmarshal : string -> yaml.Node -> yaml.Node * option error.
Variable Decode : yaml.Node -> result any.
Variable AppendFloat : float -> ascii -> string.

(** Lines 21-40.  The result is the world after the call and the error
  returned ([None] for [nil]); a panic in [convertNode] unwinds through
  [run]. *)
Definition run (w : World) : outcome (World * option error) :=
match stdin w with
| Err err => Ret (w, Some ("read stdin: " ++ err))
| Ok data =>
    let '(node, err) := Unmarshal data yaml.zero in
    match err with
    | Some err => Ret (w, Some ("parse yaml: " ++ err))
    | None =>
        match yaml.Content node with
        | [] => Ret (w, Some "empty document")
        | first :: _ =>
            (normalized <- convertNode Decode first ;;
             match Encode AppendFloat false normalized with
             | Err err => Ret (w, Some ("write json: " ++ err))
             | Ok b =>
                 let '(w', err) := writeStdout b w in
                 match err with
                 | Some err => Ret (w', Some ("write json: " ++ err))
                 | None => Ret (w', None)
                 end
             end)%go
        end
    end
end.

(** Lines 14-19: the world the process leaves and its exit status. *)
Definition main (w : World) : outcome (World * Z) :=
(r <- run w ;;
 let '(w', err) := r in
 match err with
 | Some err => Ret (writeStderr ("yaml_to_json: " ++ err ++ newline) w', 1%Z)
 | None => Ret (w', 0%Z)
 end)%go.

End Program.

(** * The vocabulary of the statements *)

(** ** Induction over node trees and values *)

Section NodeInduction.

Variable P : yaml.Node -> Prop.
Hypothesis step : forall kind style tag value content,
  Forall P content -> P (yaml.mkNode kind style tag value content).

Fixpoint Node_ind (n : yaml.Node) : P n :=
  match n with
  | yaml.mkNode kind style tag value content =>
      step kind style tag value content
        ((fix children (l : list yaml.Node) : Forall P l :=
            match l with
            | [] => Forall_nil P
            | x :: l' => Forall_cons x (Node_ind x) (children l')
            end) content)
  end.

End NodeInduction.

Section AnyInduction.

Variable P : any -> Prop.
Hypothesis P_nil : P ANil.
Hypothesis P_bool : forall b, P (ABool b).
Hypothesis P_int : forall i, P (AInt i).
Hypothesis P_float : forall f, P (AFloat f).
Hypothesis P_string : forall s, P (AString s).
Hypothesis P_slice : forall items, Forall P items -> P (ASlice items).
Hypothesis P_map : forall entries,
  Forall (fun e : mapEntry => P (Value e)) entries ->
  P (AOrderedMap (Build_orderedMap entries)).

Fixpoint any_ind (v : any) : P v :=
  match v with
  | ANil => P_nil
  | ABool b => P_bool b
  | AInt i => P_int i
  | AFloat f => P_float f
  | AString s => P_string s
  | ASlice items =>
      P_slice items
        ((fix each (l : list any) : Forall P l :=
            match l with
            | [] => Forall_nil P
            | x :: l' => Forall_cons x (any_ind x) (each l')
            end) items)
  | AOrderedMap (Build_orderedMap entries) =>
      P_map entries
        ((fix each (l : list mapEntry) : Forall (fun e : mapEntry => P (Value e)) l :=
            match l with
            | [] => Forall_nil _
            | e :: l' =>
                Forall_cons (P := fun e : mapEntry => P (Value e)) e
                  (any_ind (Value e)) (each l')
            end) entries)
  end.

End AnyInduction.

(** ** The shape of a mapping *)

Module shape.

(** The children of a mapping node taken two by two, as the loop of
    [convertNode] does: key node and value node.  A last key with no value
    next to it forms no pair. *)
Fixpoint pairs (content : list yaml.Node) : list (yaml.Node * yaml.Node) :=
  match content with
  | keyNode :: valueNode :: rest => (keyNode, valueNode) :: pairs rest
  | _ => []
  end.

(** The raw text of the key nodes, in source order. *)
Definition keyTexts (content : list yaml.Node) : list string :=
  map (fun p => yaml.Value (fst p)) (pairs content).

(** Every mapping node of the tree has its children in pairs, as the
    parser builds them. *)
Fixpoint paired (n : yaml.Node) : bool :=
  match n with
  | yaml.mkNode kind _ _ _ content =>
      ((if (kind =? yaml.MappingNode)%N then Nat.even (List.length content) else true)
       && forallb paired content)%bool
  end.

(** The entries a mapping's pairs give, once the value nodes are
    converted. *)
Definition entriesOf (ps : list (yaml.Node * yaml.Node)) (vals : list any) : list mapEntry :=
  map (fun pv => Build_mapEntry (yaml.Value (fst (fst pv))) (snd pv)) (combine ps vals).

(** [v] follows [n] in source order: a mapping node gave an object whose
    entries stand for the node's pairs one by one, in the same order, each
    key being the key node's text and each value following the value node
    in turn; a sequence gave its items in order; a document gave what its
    first child gave. *)
Fixpoint inSourceOrder (n : yaml.Node) (v : any) {struct n} : Prop :=
  match n with
  | yaml.mkNode kind _ _ _ content =>
      if (kind =? yaml.MappingNode)%N then
        match v with
        | AOrderedMap o =>
            (fix walk (c : list yaml.Node) (es : list mapEntry) {struct c} : Prop :=
               match c, es with
               | [], [] => True
               | keyNode :: valueNode :: c', e :: es' =>
                   Key e = yaml.Value keyNode
                   /\ inSourceOrder valueNode (Value e)
                   /\ walk c' es'
               | _, _ => False
               end) content (Entries o)
        | _ => False
        end
      else if (kind =? yaml.SequenceNode)%N then
        match v with
        | ASlice items =>
            (fix walk (c : list yaml.Node) (vs : list any) {struct c} : Prop :=
               match c, vs with
               | [], [] => True
               | child :: c', item :: vs' => inSourceOrder child item /\ walk c' vs'
               | _, _ => False
               end) content items
        | _ => False
        end
      else if (kind =? yaml.DocumentNode)%N then
        match content with
        | first :: _ => inSourceOrder first v
        | [] => True
        end
      else True
  end.

(** Two lists of children that agree pair by pair on the text of the key
    node and on the value node; the key nodes may differ in every other
    field. *)
Definition keysAlike (c c' : list yaml.Node) : Prop :=
  List.length c = List.length c' /\
  Forall2 (fun p p' => yaml.Value (fst p) = yaml.Value (fst p') /\ snd p = snd p')
    (pairs c) (pairs c').

(** Every mapping node [convertNode] comes to has its children in pairs.
    The function goes from a mapping to its value nodes, from a sequence
    to its children and from a document to its first child; it never
    enters a key node, a scalar, or a later child of a document. *)
Fixpoint reachedPaired (n : yaml.Node) : bool :=
  match n with
  | yaml.mkNode kind _ _ _ content =>
      if (kind =? yaml.MappingNode)%N then
        (Nat.even (List.length content)
         && (fix values (c : list yaml.Node) : bool :=
               match c with
               | _ :: valueNode :: c' => reachedPaired valueNode && values c'
               | _ => true
               end) content)%bool
      else if (kind =? yaml.SequenceNode)%N then forallb reachedPaired content
      else if (kind =? yaml.ScalarNode)%N then true
      else if (kind =? yaml.DocumentNode)%N then
        match content with
        | first :: _ => reachedPaired first
        | [] => true
        end
      else true
  end.

(** The nodes of the tree [convertNode] may hand to the decoder: the
    scalar nodes it comes to, in source order. *)
Fixpoint decoded (n : yaml.Node) : list yaml.Node :=
  match n with
  | yaml.mkNode kind _ _ _ content =>
      if (kind =? yaml.MappingNode)%N then
        (fix values (c : list yaml.Node) : list yaml.Node :=
           match c with
           | _ :: valueNode :: c' => (decoded valueNode ++ values c')%list
           | _ => []
           end) content
      else if (kind =? yaml.SequenceNode)%N then
        (fix children (c : list yaml.Node) : list yaml.Node :=
           match c with
           | child :: c' => (decoded child ++ children c')%list
           | [] => []
           end) content
      else if (kind =? yaml.ScalarNode)%N then [n]
      else if (kind =? yaml.DocumentNode)%N then
        match content with
        | first :: _ => decoded first
        | [] => []
        end
      else []
  end.

End shape.

(** ** The text of objects and arrays *)

Module text.

(** A member of an object: the key as a JSON string literal, as
    [json.Marshal] writes it, a colon, the value's text. *)
Definition memberText (key valueText : string) : string :=
  json.appendString key true ++ ":" ++ valueText.

(** The members of the entries, in the order of the entries, given the
    texts of their values. *)
Definition members (entries : list mapEntry) (texts : list string) : list string :=
  map (fun et => memberText (Key (fst et)) (snd et)) (combine entries texts).

Definition objectText (ms : list string) : string := "{" ++ String.concat "," ms ++ "}".

Definition arrayText (items : list string) : string := "[" ++ String.concat "," items ++ "]".

(** Each text with a comma before it. *)
Fixpoint commas (ms : list string) : string :=
  match ms with
  | [] => ""
  | m :: ms' => "," ++ m ++ commas ms'
  end.

(** A text of ASCII bytes that [appendString] writes as they are even in
    HTML-safe mode. *)
Fixpoint safeText (s : string) : bool :=
  match s with
  | EmptyString => true
  | String c rest => (json.htmlSafeSet (byte_of c) && safeText rest)%bool
  end.

(** A text between double quotes. *)
Definition quoted (s : string) : string :=
  String json.quote s ++ String json.quote "".

(** A byte that stands for itself outside string literals: ASCII, and
    neither white space, nor the double quote, nor one of the characters
    the HTML-safe mode rewrites. *)
Definition bareByte (b : N) : bool :=
  ((b <? 128) && negb (b =? 34) && negb (json.isSpace b)
   && negb (b =? 60) && negb (b =? 62) && negb (b =? 38))%N%bool.

Fixpoint bare (s : string) : bool :=
  match s with
  | EmptyString => true
  | String c rest => (bareByte (byte_of c) && bare rest)%bool
  end.

(** A byte [appendCompact] copies whatever follows it: none of the three
    HTML-unsafe characters, and not the first byte of a line separator. *)
Definition copied (b : N) : bool :=
  (negb (b =? 60) && negb (b =? 62) && negb (b =? 38) && negb (b =? 226))%N%bool.

(** A byte that is copied inside a string literal and keeps the scanner
    inside it. *)
Definition quietByte (b : N) : bool :=
  (copied b && negb (b =? 34) && negb (b =? 92))%N%bool.

Fixpoint quiet (s : string) : bool :=
  match s with
  | EmptyString => true
  | String c rest => (quietByte (byte_of c) && quiet rest)%bool
  end.

(** A continuation byte of a UTF-8 sequence. *)
Definition cont (c : ascii) : Prop := ((128 <= byte_of c) /\ (byte_of c <= 191))%N.

(** What one turn of the loop of [appendString] writes: an ASCII byte that
    is safe in the mode in force; the escape of another ASCII byte; the
    replacement for an invalid byte; the escape of a line separator; or the
    bytes of a rune of two to four bytes, kept as they are. *)
Inductive chunk (escapeHTML : bool) : string -> Prop :=
| chunk_safe c :
    (json.htmlSafeSet (byte_of c)
     || (negb escapeHTML && json.safeSet (byte_of c)))%bool = true ->
    chunk escapeHTML (String c "")
| chunk_escape c : chunk escapeHTML (json.escapeASCII c)
| chunk_invalid : chunk escapeHTML "\ufffd"
| chunk_separator r :
    chunk escapeHTML
      (String "\" (String "u" (String "2" (String "0" (String "2"
         (String (json.hexDigit (N.land r 15)) ""))))))
| chunk_rune2 c c1 :
    (128 <= byte_of c)%N -> byte_of c <> 226%N -> cont c1 ->
    chunk escapeHTML (String c (String c1 ""))
| chunk_rune3 c c1 c2 :
    (128 <= byte_of c)%N -> cont c1 -> cont c2 ->
    (forall rest, json.lineSeparator (String c (String c1 (String c2 rest))) = None) ->
    chunk escapeHTML (String c (String c1 (String c2 "")))
| chunk_rune4 c c1 c2 c3 :
    (128 <= byte_of c)%N -> byte_of c <> 226%N -> cont c1 -> cont c2 -> cont c3 ->
    chunk escapeHTML (String c (String c1 (String c2 (String c3 "")))).

(** Every byte of the text passes the test. *)
Fixpoint allBytes (p : N -> bool) (s : string) : bool :=
  match s with
  | EmptyString => true
  | String c rest => (p (byte_of c) && allBytes p rest)%bool
  end.

(** A text without a newline. *)
Definition lineFree (s : string) : bool := allBytes (fun b => negb (b =? 10)%N) s.

(** A text without [<], [>] and [&]. *)
Definition htmlFree (s : string) : bool :=
  allBytes (fun b => negb ((b =? 60) || (b =? 62) || (b =? 38))%N) s.

(** The characters escape sequences are made of. *)
Definition escapeChars : string :=
  String "\" (String json.quote "bfnrtu0123456789abcdef").

(** A text that [appendCompact] leaves as it is, wherever it stands
    between tokens and in either mode. *)
Definition compacted (b : string) : Prop :=
  forall escape rest,
    json.compactLoop escape json.scanOutside 0 (b ++ rest)
    = b ++ json.compactLoop escape json.scanOutside 0 rest.

(** A text without control characters: no byte below the space. *)
Definition controlFree (s : string) : bool := allBytes (fun b => 32 <=? b)%N s.

End text.

(** ** Values the encoder accepts *)

Module value.

(** A float that is neither infinite nor a NaN. *)
Definition finiteFloat (f : float) : bool :=
  negb (PrimFloat.is_infinity f || PrimFloat.is_nan f).

(** The floats of the value, at every depth, in the order of the items
    and of the entries. *)
Fixpoint floats (v : any) : list float :=
  match v with
  | AFloat f => [f]
  | ASlice items => flat_map floats items
  | AOrderedMap o => flat_map (fun entry => floats (Value entry)) (Entries o)
  | _ => []
  end.

(** Every float of the value is finite. *)
Definition finite (v : any) : bool := forallb finiteFloat (floats v).

(** The floats of the value in the same order, each with its depth: the
    number of mappings it lies in. *)
Fixpoint floatsAt (v : any) : list (nat * float) :=
  match v with
  | AFloat f => [(O, f)]
  | ASlice items => flat_map floatsAt items
  | AOrderedMap o =>
      map (fun df => (S (fst df), snd df))
        (flat_map (fun entry => floatsAt (Value entry)) (Entries o))
  | _ => []
  end.

(** The first float of the value that is not finite, with its depth, if
    there is one. *)
Definition firstNonFinite (v : any) : option (nat * float) :=
  find (fun df => negb (finiteFloat (snd df))) (floatsAt v).

(** The text of [UnsupportedValueError] for a float. *)
Definition unsupported (AppendFloat : float -> ascii -> string) (f : float) : string :=
  "json: unsupported value: " ++ AppendFloat f "g"%char.

(** The text of [MarshalerError] for the error [err] that the method
    [MarshalJSON] of a value of the type printed as [type] returned. *)
Definition marshalerError (type err : string) : string :=
  "json: error calling MarshalJSON for type " ++ type ++ ": " ++ err.

(** The error after it passed through [MarshalJSON] once for each of the
    types, the outermost first. *)
Fixpoint wrapped (types : list string) (err : string) : string :=
  match types with
  | [] => err
  | type :: types' => marshalerError type (wrapped types' err)
  end.

End value.

(** ** How a run ends *)

(** What a failed run leaves: the message after the program's name on
    standard error, standard output as it was, and the exit status 1. *)
Definition failed (w : World) (msg : string) : World * Z :=
  (mkWorld (stdin w) (stdout w) (stderr w ++ "yaml_to_json: " ++ msg ++ newline)
     (stdoutErr w), 1%Z).

Section Courses.

Variable Unmarshal : string -> yaml.Node -> yaml.Node * option error.
Variable Decode : yaml.Node -> result any.
Variable AppendFloat : float -> ascii -> string.

(** The courses [main] can take from the world [w], one for each [return]
    of [run], and one for a panic in [convertNode]. *)
Inductive course (w : World) : outcome (World * Z) -> Prop :=
| course_read err :
    stdin w = Err err -> course w (Ret (failed w ("read stdin: " ++ err)))
| course_parse data node err :
    stdin w = Ok data -> Unmarshal data yaml.zero = (node, Some err) ->
    course w (Ret (failed w ("parse yaml: " ++ err)))
| course_empty data node :
    stdin w = Ok data -> Unmarshal data yaml.zero = (node, None) ->
    yaml.Content node = [] ->
    course w (Ret (failed w "empty document"))
| course_panic data node first rest msg :
    stdin w = Ok data -> Unmarshal data yaml.zero = (node, None) ->
    yaml.Content node = first :: rest ->
    convertNode Decode first = Panic msg ->
    course w (Panic msg)
| course_encode data node first rest v err :
    stdin w = Ok data -> Unmarshal data yaml.zero = (node, None) ->
    yaml.Content node = first :: rest ->
    convertNode Decode first = Ret v ->
    reflectValue AppendFloat false v = Err err ->
    course w (Ret (failed w ("write json: " ++ err)))
| course_write data node first rest v b err :
    stdin w = Ok data -> Unmarshal data yaml.zero = (node, None) ->
    yaml.Content node = first :: rest ->
    convertNode Decode first = Ret v ->
    reflectValue AppendFloat false v = Ok b ->
    stdoutErr w = Some err ->
    course w (Ret (failed w ("write json: " ++ err)))
| course_done data node first rest v b :
    stdin w = Ok data -> Unmarshal data yaml.zero = (node, None) ->
    yaml.Content node = first :: rest ->
    convertNode Decode first = Ret v ->
    reflectValue AppendFloat false v = Ok b ->
    stdoutErr w = None ->
    course w (Ret (mkWorld (stdin w) (stdout w ++ b ++ newline) (stderr w) None, 0%Z)).

End Courses.

(** ** Sample libraries and inputs *)

(** The theorems below hold for any parser, scalar decoder and float
    printer.  The samples here stand for these libraries where a statement
    is run on a concrete input. *)

Module Sample.

(** [strconv.ParseFloat(s, 64)] on short decimal texts: an optional sign and
    at most fifteen digits with an optional point among them.  Such a text
    is the quotient of two integers a [float64] holds exactly, and one
    division rounds it to the nearest [float64].  Other texts are not
    read. *)
Definition ParseFloat (s : string) : option float :=
  let body := yamlv3.dropSign s in
  let '(n1, tail1) := yamlv3.spanDigits body in
  let '(n2, tail2) :=
    match tail1 with
    | String "." rest => yamlv3.spanDigits rest
    | _ => (O, tail1)
    end in
  if ((0 <? n1 + n2) && (n1 + n2 <=? 15) && String.eqb tail2 "")%nat%bool then
    let digits := String.substring 0 n1 body
                  ++ String.substring (S n1) n2 body in
    match yamlv3.parseDigits 10 digits 0 with
    | Some m =>
        let f := PrimFloat.div (PrimFloat.of_uint63 (Uint63.of_Z (Z.of_N m)))
                   (PrimFloat.of_uint63 (Uint63.of_Z (10 ^ Z.of_nat n2))) in
        Some (if yamlv3.HasPrefix s "-" then PrimFloat.opp f else f)
    | None => None
    end
  else None.

(** [strconv.AppendFloat(b, f, fmt, -1, 64)] on a float with no fractional
    part: its integer part in decimal. *)
Definition AppendFloat (f : float) (fmt : ascii) : string :=
  match Prim2SF f with
  | S754_zero s => if s then "-0" else "0"
  | S754_infinity s => if s then "-Inf" else "+Inf"
  | S754_nan => "NaN"
  | S754_finite s m e =>
      let magnitude :=
        if (0 <=? e)%Z then (Z.pos m * 2 ^ e)%Z else (Z.pos m / 2 ^ (- e))%Z in
      (if s then "-" else "") ++ strconv.FormatInt magnitude
  end.

Definition Decode : yaml.Node -> result any := yamlv3.Decode ParseFloat.

(** Nodes as the parser builds them: a plain scalar carries the tag its
    text resolves to, a quoted one the tag [!!str]. *)
Definition plain (tag value : string) : yaml.Node :=
  yaml.mkNode yaml.ScalarNode 0%N tag value [].

Definition quoted (value : string) : yaml.Node :=
  yaml.mkNode yaml.ScalarNode yaml.DoubleQuotedStyle "!!str" value [].

Definition mapping (content : list yaml.Node) : yaml.Node :=
  yaml.mkNode yaml.MappingNode 0%N "!!map" "" content.

Definition sequence (content : list yaml.Node) : yaml.Node :=
  yaml.mkNode yaml.SequenceNode 0%N "!!seq" "" content.

Definition flowSequence (content : list yaml.Node) : yaml.Node :=
  yaml.mkNode yaml.SequenceNode yaml.FlowStyle "!!seq" "" content.

Definition document (root : yaml.Node) : yaml.Node :=
  yaml.mkNode yaml.DocumentNode 0%N "" "" [root].

Definition lines (ls : list string) : string :=
  String.concat "" (map (fun l => l ++ newline) ls).

(** The end-to-end example of the specification. *)
Definition widgetText : string :=
  lines [ "name: Widget"; "count: 3"; "tags: [a, b]"; "active: true" ].

Definition widgetDocument : yaml.Node :=
  document (mapping
    [ plain "!!str" "name"; plain "!!str" "Widget";
      plain "!!str" "count"; plain "!!int" "3";
      plain "!!str" "tags"; flowSequence [ plain "!!str" "a"; plain "!!str" "b" ];
      plain "!!str" "active"; plain "!!bool" "true" ]).

(** A mapping with a repeated key. *)
Definition duplicateText : string := lines [ "a: 1"; "a: 2" ].

Definition duplicateDocument : yaml.Node :=
  document (mapping
    [ plain "!!str" "a"; plain "!!int" "1"; plain "!!str" "a"; plain "!!int" "2" ]).

(** A string with HTML-unsafe characters inside a mapping. *)
Definition htmlText : string := lines [ "a: <b> & c" ].

Definition htmlDocument : yaml.Node :=
  document (mapping [ plain "!!str" "a"; plain "!!str" "<b> & c" ]).

(** The same string at the top of a sequence. *)
Definition htmlListText : string := lines [ "- <b> & c" ].

Definition htmlListDocument : yaml.Node :=
  document (sequence [ plain "!!str" "<b> & c" ]).

(** Two documents in one stream. *)
Definition secondText : string := lines [ "b: 2" ].

Definition twoDocumentsText : string := lines [ "a: 1"; "---"; "b: 2" ].

Definition firstDocument : yaml.Node :=
  document (mapping [ plain "!!str" "a"; plain "!!int" "1" ]).

Definition secondDocument : yaml.Node :=
  document (mapping [ plain "!!str" "b"; plain "!!int" "2" ]).

(** Complex keys: two flow sequences used as keys. *)
Definition complexKeysDocument : yaml.Node :=
  document (mapping
    [ flowSequence [ plain "!!str" "x" ]; plain "!!int" "1";
      flowSequence [ plain "!!str" "y" ]; plain "!!int" "2" ]).

(** The sample streams: each text with its first document and the text
    after it. *)
Definition streams : list (string * (yaml.Node * string)) :=
  [ (widgetText, (widgetDocument, ""));
    (duplicateText, (duplicateDocument, ""));
    (htmlText, (htmlDocument, ""));
    (htmlListText, (htmlListDocument, ""));
    (twoDocumentsText, (firstDocument, secondText));
    (secondText, (secondDocument, "")) ].

(** The parser on the sample streams; the empty stream holds no
    document. *)
Definition parse (data : string) : result (option (yaml.Node * string)) :=
  if String.eqb data "" then Ok None
  else
    match find (fun entry => String.eqb (fst entry) data) streams with
    | Some (_, first) => Ok (Some first)
    | None => Err "yaml: not one of the sample streams"
    end.

Definition Unmarshal : string -> yaml.Node -> yaml.Node * option error :=
  yamlv3.Unmarshal parse.

(** The line the specification gives for the widget text. *)
Definition widgetJSON : string :=
  "{" ++ text.quoted "name" ++ ":" ++ text.quoted "Widget" ++ ","
      ++ text.quoted "count" ++ ":3,"
      ++ text.quoted "tags" ++ ":[" ++ text.quoted "a" ++ "," ++ text.quoted "b" ++ "],"
      ++ text.quoted "active" ++ ":true}".

(** A process started with [data] on its standard input. *)
Definition start (data : string) : World := mkWorld (Ok data) "" "" None.

(** A parser that finds the document [doc], and one that reports the
    error [err]. *)
Definition finds (doc : yaml.Node) : string -> yaml.Node -> yaml.Node * option error :=
  fun _ _ => (doc, None).

Definition reports (err : error) : string -> yaml.Node -> yaml.Node * option error :=
  fun _ node => (node, Some err).

(** A mapping with a float that is not a number: [a: .nan]. *)
Definition nanDocument : yaml.Node :=
  document (mapping [ plain "!!str" "a"; plain "!!float" ".nan" ]).

(** A mapping used as a key that lost its value node, in a mapping that is
    well formed; and a mapping that lost a value node itself. *)
Definition oddKeyDocument : yaml.Node :=
  document (mapping [ mapping [ plain "!!str" "k" ]; plain "!!int" "1" ]).

Definition oddDocument : yaml.Node :=
  document (mapping [ plain "!!str" "a"; plain "!!int" "1"; plain "!!str" "b" ]).

(** A decoder that fails on every scalar whose text is [count]. *)
Definition DecodeButCount (n : yaml.Node) : result any :=
  if String.eqb (yaml.Value n) "count" then Err "yaml: cannot decode" else Decode n.

End Sample.

(** * Lemmas *)

(** ** Proof tools *)

(** Comparisons on [N] as propositions. *)
Ltac order_N :=
  repeat match goal with
    | H : (_ <? _)%N = true |- _ => apply N.ltb_lt in H
    | H : (_ <? _)%N = false |- _ => apply N.ltb_ge in H
    | H : (_ <=? _)%N = true |- _ => apply N.leb_le in H
    | H : (_ <=? _)%N = false |- _ => apply N.leb_gt in H
    | H : (_ =? _)%N = true |- _ => apply N.eqb_eq in H
    | H : (_ =? _)%N = false |- _ => apply N.eqb_neq in H
    end.



(** ** Facts about [convertNode] *)

Section ConverterFacts.

Import shape.

Variable Decode : yaml.Node -> result any.

(** Lists taken two elements at a time. *)
Lemma list_pair_ind (A : Type) (P : list A -> Prop) :
  P [] -> (forall x, P [x]) -> (forall x y l, P l -> P (x :: y :: l)) ->
  forall l, P l.
Proof.
  intros Hnil Hone Hstep l.
  assert (both : P l /\ forall x, P (x :: l)).
  { induction l as [|y l [IH1 IH2]].
    - split; [exact Hnil | exact Hone].
    - split; [apply IH2 | intros x; apply Hstep, IH1]. }
  exact (proj1 both).
Qed.

Lemma convertNode_unfold kind style tag value content :
  convertNode Decode (yaml.mkNode kind style tag value content) =
  if (kind =? yaml.MappingNode)%N then
    (entries <- mappingLoop (convertNode Decode) content [] ;;
     Ret (AOrderedMap (Build_orderedMap entries)))%go
  else if (kind =? yaml.SequenceNode)%N then
    (items <- sequenceLoop (convertNode Decode) content ;; Ret (ASlice items))%go
  else if (kind =? yaml.ScalarNode)%N then
    match Decode (yaml.mkNode kind style tag value content) with
    | Ok out => Ret out
    | Err _ => Ret (AString value)
    end
  else if (kind =? yaml.DocumentNode)%N then
    match content with
    | first :: _ => convertNode Decode first
    | [] => Ret ANil
    end
  else Ret ANil.
Proof. reflexivity. Qed.

Section LoopFacts.

Variable convert : yaml.Node -> outcome any.

(** When the loop over a mapping's children returns, the children came in
    pairs, every value node was converted, and the entries are the pairs'
    entries appended to those already there, in order. *)
Lemma mappingLoop_ret : forall rest acc es,
  mappingLoop convert rest acc = Ret es ->
  Nat.even (List.length rest) = true /\
  exists vals,
    Forall2 (fun p c => convert (snd p) = Ret c) (pairs rest) vals /\
    es = (acc ++ entriesOf (pairs rest) vals)%list.
Proof.
  intros rest; induction rest as [|k|k v rest IH] using list_pair_ind;
    intros acc es H.
  - simpl in H. injection H as <-. split; [reflexivity|].
    exists []. split; [constructor|]. unfold entriesOf; simpl.
    now rewrite List.app_nil_r.
  - discriminate H.
  - simpl in H. destruct (convert v) as [c|msg] eqn:Hv; [|discriminate H].
    simpl in H. apply IH in H as [Hev [vals [Hall ->]]].
    split; [exact Hev|].
    exists (c :: vals). split.
    + simpl. constructor; [exact Hv | exact Hall].
    + unfold entriesOf; simpl. now rewrite <- List.app_assoc.
Qed.

(** The loop returns as soon as the children come in pairs and the value
    nodes convert. *)
Lemma mappingLoop_total : forall rest acc,
  Nat.even (List.length rest) = true ->
  Forall (fun n => exists c, convert n = Ret c) rest ->
  exists es, mappingLoop convert rest acc = Ret es.
Proof.
  intros rest; induction rest as [|k|k v rest IH] using list_pair_ind;
    intros acc Hev Hall.
  - exists acc. reflexivity.
  - discriminate Hev.
  - inversion Hall as [|? ? _ Hall']; subst.
    inversion Hall' as [|? ? [c Hc] Hrest]; subst.
    simpl. rewrite Hc. simpl. apply IH; assumption.
Qed.

(** A last key without a value makes the loop panic, whatever came
    before, unless an earlier value node already did. *)
Lemma mappingLoop_odd : forall rest acc,
  Nat.even (List.length rest) = false ->
  exists msg, mappingLoop convert rest acc = Panic msg.
Proof.
  intros rest; induction rest as [|k|k v rest IH] using list_pair_ind;
    intros acc Hodd.
  - discriminate Hodd.
  - eexists. reflexivity.
  - simpl. destruct (convert v) as [c|msg]; simpl.
    + apply IH. exact Hodd.
    + eexists. reflexivity.
Qed.

Lemma sequenceLoop_ret : forall children items,
  sequenceLoop convert children = Ret items ->
  Forall2 (fun n c => convert n = Ret c) children items.
Proof.
  induction children as [|child children IH]; intros items H.
  - injection H as <-. constructor.
  - simpl in H. destruct (convert child) as [c|] eqn:Hc; [|discriminate H].
    simpl in H.
    destruct (sequenceLoop convert children) as [cs|] eqn:Hcs; [|discriminate H].
    injection H as <-. constructor; [exact Hc | apply IH; reflexivity].
Qed.

Lemma sequenceLoop_total : forall children,
  Forall (fun n => exists c, convert n = Ret c) children ->
  exists items, sequenceLoop convert children = Ret items.
Proof.
  induction children as [|child children IH]; intros Hall.
  - exists []. reflexivity.
  - inversion Hall as [|? ? [c Hc] Hrest]; subst.
    destruct (IH Hrest) as [items Hitems].
    exists (c :: items). simpl. now rewrite Hc, Hitems.
Qed.

End LoopFacts.

(** What a mapping node converts to, when it converts. *)
Lemma convertNode_mapping style tag value content v :
  convertNode Decode (yaml.mkNode yaml.MappingNode style tag value content) = Ret v ->
  Nat.even (List.length content) = true /\
  exists vals,
    Forall2 (fun p c => convertNode Decode (snd p) = Ret c) (pairs content) vals /\
    v = AOrderedMap (Build_orderedMap (entriesOf (pairs content) vals)).
Proof.
  rewrite convertNode_unfold. simpl.
  destruct (mappingLoop (convertNode Decode) content []) as [es|] eqn:Hloop;
    [|discriminate].
  simpl. intros [= <-].
  apply mappingLoop_ret in Hloop as [Hev [vals [Hall ->]]].
  split; [exact Hev|]. exists vals. split; [exact Hall | reflexivity].
Qed.

Lemma entriesOf_keys : forall ps vals,
  List.length vals = List.length ps ->
  map Key (entriesOf ps vals) = map (fun p => yaml.Value (fst p)) ps.
Proof.
  induction ps as [|p ps IH]; intros [|c vals] Hlen; try discriminate Hlen.
  - reflexivity.
  - unfold entriesOf in *. simpl. f_equal. apply IH. now injection Hlen.
Qed.

Lemma entriesOf_length : forall ps vals,
  List.length vals = List.length ps ->
  List.length (entriesOf ps vals) = List.length ps.
Proof.
  intros ps vals Hlen. unfold entriesOf.
  rewrite length_map, length_combine, Hlen. apply Nat.min_id.
Qed.

End ConverterFacts.

Section ConverterTheorems.

Import shape.

Variable Decode : yaml.Node -> result any.

Lemma paired_children kind style tag value content :
  paired (yaml.mkNode kind style tag value content) = true ->
  Forall (fun n => paired n = true) content.
Proof.
  simpl. intros H. apply andb_prop in H as [_ H].
  apply Forall_forall. intros x Hx.
  rewrite forallb_forall in H. now apply H.
Qed.

(** Conversion returns on every tree whose mappings have their children in
    pairs. *)
Lemma convertNode_paired : forall n,
  paired n = true -> exists v, convertNode Decode n = Ret v.
Proof.
  induction n as [kind style tag value content IH] using Node_ind.
  intros Hp. pose proof (paired_children _ _ _ _ _ Hp) as Hc.
  assert (Hall : Forall (fun n => exists c, convertNode Decode n = Ret c) content).
  { rewrite Forall_forall in *. intros x Hx. apply IH; [exact Hx | now apply Hc]. }
  rewrite convertNode_unfold.
  destruct (kind =? yaml.MappingNode)%N eqn:Hm.
  - simpl in Hp. rewrite Hm in Hp. apply andb_prop in Hp as [Hev _].
    destruct (mappingLoop_total (convertNode Decode) content [] Hev Hall) as [es ->].
    simpl. eauto.
  - destruct (kind =? yaml.SequenceNode)%N.
    + destruct (sequenceLoop_total (convertNode Decode) content Hall) as [items ->].
      simpl. eauto.
    + destruct (kind =? yaml.ScalarNode)%N.
      * destruct (Decode _); eauto.
      * destruct (kind =? yaml.DocumentNode)%N; [|eauto].
        destruct content as [|first rest]; [eauto|].
        inversion Hall; subst; assumption.
Qed.

(** What conversion returns follows the node tree in source order, at
    every depth. *)
Lemma convertNode_inSourceOrder : forall n v,
  convertNode Decode n = Ret v -> inSourceOrder n v.
Proof.
  induction n as [kind style tag value content IH] using Node_ind.
  intros v H. rewrite convertNode_unfold in H. simpl.
  destruct (kind =? yaml.MappingNode)%N eqn:Hm.
  - destruct (mappingLoop (convertNode Decode) content []) as [es|] eqn:Hloop;
      [|discriminate H].
    simpl in H. injection H as <-. simpl.
    apply mappingLoop_ret in Hloop as [Hev [vals [Hall ->]]]. simpl.
    clear Hm. revert vals Hev Hall IH.
    induction content as [|k|k vn content IHc] using list_pair_ind;
      intros vals Hev Hall IH.
    + inversion Hall; subst. exact I.
    + discriminate Hev.
    + simpl in Hall. inversion Hall as [|? c ? vals' Hc Hall']; subst.
      unfold entriesOf. simpl.
      inversion IH as [|? ? _ IH']; subst.
      inversion IH' as [|? ? IHvn IH'']; subst.
      split; [reflexivity|]. split; [apply IHvn; exact Hc|].
      apply IHc; assumption.
  - destruct (kind =? yaml.SequenceNode)%N.
    + destruct (sequenceLoop (convertNode Decode) content) as [items|] eqn:Hloop;
        [|discriminate H].
      simpl in H. injection H as <-.
      apply sequenceLoop_ret in Hloop.
      induction Hloop as [|child item content items Hc _ IHl].
      * exact I.
      * inversion IH; subst. split; [auto | apply IHl; assumption].
    + destruct (N.eqb_spec kind yaml.ScalarNode) as [->|_]; [exact I|].
      destruct (kind =? yaml.DocumentNode)%N; [|exact I].
      destruct content as [|first rest]; [exact I|].
      inversion IH; subst. auto.
Qed.

End ConverterTheorems.

(** ** Facts about strings *)

Lemma append_assoc (s1 s2 s3 : string) : (s1 ++ s2) ++ s3 = s1 ++ (s2 ++ s3).
Proof. induction s1 as [|c s1 IH]; simpl; [reflexivity | now rewrite IH]. Qed.

Lemma append_nil_r (s : string) : s ++ "" = s.
Proof. induction s as [|c s IH]; simpl; [reflexivity | now rewrite IH]. Qed.

(** Appends nested to the right, literal heads pushed through. *)
Ltac string_norm :=
  unfold text.memberText, json.appendString in *;
  repeat (rewrite ?append_assoc; cbn [append]).

Lemma concat_commas (m : string) (ms : list string) :
  String.concat "," (m :: ms) = m ++ text.commas ms.
Proof.
  revert m. induction ms as [|m' ms IH]; intros m.
  - simpl. now rewrite append_nil_r.
  - change (String.concat "," (m :: m' :: ms))
      with (m ++ "," ++ String.concat "," (m' :: ms)).
    rewrite IH. reflexivity.
Qed.

(** ** Facts about [MarshalJSON] and the array encoder *)

Section LoopTexts.

Import text.

Variable Marshal : any -> result string.

(** Past the first entry the loop writes, for every entry in stored order,
    a comma and the member. *)
Lemma entriesLoop_next : forall entries i buf out,
  entriesLoop Marshal (S i) entries buf = Ok out ->
  exists texts,
    Forall2 (fun e t => Marshal (Value e) = Ok t) entries texts /\
    out = buf ++ commas (members entries texts).
Proof.
  induction entries as [|e entries IH]; intros i buf out H.
  - injection H as <-. exists []. split; [constructor|].
    simpl. now rewrite append_nil_r.
  - simpl in H. destruct (Marshal (Value e)) as [t|] eqn:Ht; [|discriminate H].
    apply IH in H as [texts [Hall ->]].
    exists (t :: texts). split; [constructor; assumption|].
    unfold members. cbn [map combine fst snd commas].
    string_norm. reflexivity.
Qed.

Lemma entriesLoop_next_ok : forall entries texts i buf,
  Forall2 (fun e t => Marshal (Value e) = Ok t) entries texts ->
  entriesLoop Marshal (S i) entries buf = Ok (buf ++ commas (members entries texts)).
Proof.
  induction entries as [|e entries IH]; intros texts i buf Hall;
    inversion Hall as [|? t ? texts' Ht Hall']; subst.
  - simpl. now rewrite append_nil_r.
  - simpl. rewrite Ht, (IH texts' (S i) _ Hall').
    unfold members. cbn [map combine fst snd commas].
    string_norm. reflexivity.
Qed.

Lemma entriesLoop_err : forall entries i buf err,
  entriesLoop Marshal i entries buf = Err err ->
  Exists (fun e => Marshal (Value e) = Err err) entries.
Proof.
  induction entries as [|e entries IH]; intros i buf err H; [discriminate H|].
  simpl in H. destruct (Marshal (Value e)) as [t|err'] eqn:Ht.
  - right. eapply IH; eassumption.
  - left. now injection H as <-.
Qed.

(** [MarshalJSON] writes the entries in stored order, one member each. *)
Lemma MarshalJSON_with_ret (o : orderedMap) (b : string) :
  MarshalJSON_with Marshal o = Ok b ->
  exists texts,
    Forall2 (fun e t => Marshal (Value e) = Ok t) (Entries o) texts /\
    b = objectText (members (Entries o) texts).
Proof.
  unfold MarshalJSON_with. destruct o as [entries]. simpl.
  destruct entries as [|e entries].
  - simpl. intros [= <-]. exists []. split; [constructor | reflexivity].
  - simpl. destruct (Marshal (Value e)) as [t|] eqn:Ht; [|discriminate].
    destruct (entriesLoop Marshal 1 entries _) as [out|] eqn:Hloop; [|discriminate].
    intros [= <-]. apply entriesLoop_next in Hloop as [texts [Hall ->]].
    exists (t :: texts). split; [constructor; assumption|].
    unfold objectText. change (members (e :: entries) (t :: texts))
      with (memberText (Key e) t :: members entries texts).
    rewrite concat_commas. string_norm. reflexivity.
Qed.

Lemma MarshalJSON_with_ok (o : orderedMap) (texts : list string) :
  Forall2 (fun e t => Marshal (Value e) = Ok t) (Entries o) texts ->
  MarshalJSON_with Marshal o = Ok (objectText (members (Entries o) texts)).
Proof.
  unfold MarshalJSON_with. destruct o as [entries]. simpl.
  intros Hall. inversion Hall as [|e t entries' texts' Ht Hall']; subst.
  - reflexivity.
  - simpl. rewrite Ht, (entriesLoop_next_ok _ _ 0 _ Hall').
    unfold objectText. change (members (e :: entries') (t :: texts'))
      with (memberText (Key e) t :: members entries' texts').
    rewrite concat_commas. string_norm. reflexivity.
Qed.

Lemma arrayLoop_next : forall items i buf out,
  arrayLoop Marshal (S i) items buf = Ok out ->
  exists texts,
    Forall2 (fun v t => Marshal v = Ok t) items texts /\
    out = buf ++ commas texts.
Proof.
  induction items as [|v items IH]; intros i buf out H.
  - injection H as <-. exists []. split; [constructor|].
    simpl. now rewrite append_nil_r.
  - simpl in H. destruct (Marshal v) as [t|] eqn:Ht; [|discriminate H].
    apply IH in H as [texts [Hall ->]].
    exists (t :: texts). split; [constructor; assumption|].
    cbn [commas]. string_norm. reflexivity.
Qed.

(** The array encoder writes the items in order. *)
Lemma arrayLoop_ret (items : list any) (out : string) :
  arrayLoop Marshal 0 items "[" = Ok out ->
  exists texts,
    Forall2 (fun v t => Marshal v = Ok t) items texts /\
    out ++ "]" = arrayText texts.
Proof.
  destruct items as [|v items].
  - intros [= <-]. exists []. split; [constructor | reflexivity].
  - simpl. destruct (Marshal v) as [t|] eqn:Ht; [|discriminate].
    intros Hloop. apply arrayLoop_next in Hloop as [texts [Hall ->]].
    exists (t :: texts). split; [constructor; assumption|].
    unfold arrayText. rewrite concat_commas. string_norm. reflexivity.
Qed.

End LoopTexts.

(** ** Compaction leaves the encoder's texts alone *)

Section Compaction.

Import json text.

Lemma lineSeparator_head c rest :
  (byte_of c =? 226)%N = false -> lineSeparator (String c rest) = None.
Proof.
  intros H. unfold lineSeparator.
  destruct rest as [|c1 [|c2 rest]]; try reflexivity.
  now rewrite H.
Qed.

Lemma compactLoop_copy escape st c rest :
  let b := byte_of c in
  ((b =? 60) || (b =? 62) || (b =? 38))%N%bool = false ->
  (escape = true -> lineSeparator (String c rest) = None) ->
  (st = scanOutside -> isSpace b = false) ->
  compactLoop escape st 0 (String c rest)
  = String c (compactLoop escape (scanStep st b) 0 rest).
Proof.
  intros b Hhtml Hsep Hspace.
  cbn [compactLoop]. fold b. rewrite Hhtml, andb_false_r.
  destruct escape.
  - rewrite (Hsep eq_refl). destruct st; try reflexivity.
    now rewrite (Hspace eq_refl).
  - destruct st; try reflexivity. now rewrite (Hspace eq_refl).
Qed.

Lemma copied_html b :
  copied b = true -> ((b =? 60) || (b =? 62) || (b =? 38))%N%bool = false.
Proof.
  unfold copied. intros H.
  destruct (b =? 60)%N, (b =? 62)%N, (b =? 38)%N; simpl in *; congruence.
Qed.

Lemma copied_head b : copied b = true -> (b =? 226)%N = false.
Proof.
  unfold copied. intros H. destruct (b =? 226)%N; [|reflexivity].
  rewrite !andb_false_r in H. discriminate H.
Qed.

Lemma bareByte_copied b : bareByte b = true -> copied b = true.
Proof.
  unfold bareByte, copied. intros H.
  repeat (apply andb_prop in H as [H ?]).
  apply N.ltb_lt in H.
  destruct (N.eqb_spec b 226) as [->|_]; [discriminate|].
  repeat (apply andb_true_intro; split); auto.
Qed.

(** Between tokens a bare byte is copied and leaves the scanner there. *)
Lemma compactLoop_bare escape c rest :
  bareByte (byte_of c) = true ->
  compactLoop escape scanOutside 0 (String c rest)
  = String c (compactLoop escape scanOutside 0 rest).
Proof.
  intros H. pose proof (bareByte_copied _ H) as Hc.
  rewrite compactLoop_copy.
  - unfold bareByte in H. repeat (apply andb_prop in H as [H ?]).
    unfold scanStep. destruct (byte_of c =? 34)%N; [discriminate|reflexivity].
  - now apply copied_html.
  - intros _. apply lineSeparator_head, copied_head, Hc.
  - intros _. unfold bareByte in H. repeat (apply andb_prop in H as [H ?]).
    now destruct (isSpace (byte_of c)).
Qed.

Lemma compacted_nil : compacted "".
Proof. intros escape rest. reflexivity. Qed.

Lemma compacted_app a b : compacted a -> compacted b -> compacted (a ++ b).
Proof.
  intros Ha Hb escape rest. now rewrite !append_assoc, Ha, Hb.
Qed.

Lemma bare_compacted s : bare s = true -> compacted s.
Proof.
  induction s as [|c s IH]; intros H escape rest.
  - reflexivity.
  - simpl in H. apply andb_prop in H as [Hc Hs].
    cbn [append]. rewrite compactLoop_bare by exact Hc.
    now rewrite (IH Hs).
Qed.

Lemma bare_app a b : bare a = true -> bare b = true -> bare (a ++ b) = true.
Proof.
  induction a as [|c a IH]; intros Ha Hb; [exact Hb|].
  simpl in *. apply andb_prop in Ha as [Hc Ha]. now rewrite Hc, IH.
Qed.

(** A compacted text, compacted on its own, is itself. *)
Lemma compacted_appendCompact b escape :
  compacted b -> appendCompact b escape = b.
Proof.
  intros H. unfold appendCompact.
  rewrite <- (append_nil_r b) at 1. rewrite H. simpl. apply append_nil_r.
Qed.

Lemma compacted_commas texts :
  Forall compacted texts -> compacted (commas texts).
Proof.
  induction 1 as [|t texts Ht _ IH]; [apply compacted_nil|].
  cbn [commas]. apply (compacted_app ","); [now apply bare_compacted|].
  now apply compacted_app.
Qed.

Lemma compacted_concat texts :
  Forall compacted texts -> compacted (String.concat "," texts).
Proof.
  intros H. destruct H as [|t texts Ht Hts]; [apply compacted_nil|].
  rewrite concat_commas. apply compacted_app; [exact Ht|].
  now apply compacted_commas.
Qed.

Lemma compacted_arrayText texts :
  Forall compacted texts -> compacted (arrayText texts).
Proof.
  intros H. unfold arrayText.
  apply (compacted_app "["); [now apply bare_compacted|].
  apply compacted_app; [now apply compacted_concat | now apply bare_compacted].
Qed.

Lemma compacted_objectText ms :
  Forall compacted ms -> compacted (objectText ms).
Proof.
  intros H. unfold objectText.
  apply (compacted_app "{"); [now apply bare_compacted|].
  apply compacted_app; [now apply compacted_concat | now apply bare_compacted].
Qed.

End Compaction.

Section StringLiterals.

Import json text.

Lemma compactLoop_quietByte escape c rest :
  quietByte (byte_of c) = true ->
  compactLoop escape scanInString 0 (String c rest)
  = String c (compactLoop escape scanInString 0 rest).
Proof.
  unfold quietByte. intros H.
  apply andb_prop in H as [H H92]. apply andb_prop in H as [Hc H34].
  rewrite compactLoop_copy.
  - unfold scanStep.
    destruct (byte_of c =? 34)%N; [discriminate|].
    destruct (byte_of c =? 92)%N; [discriminate|reflexivity].
  - now apply copied_html.
  - intros _. now apply lineSeparator_head, copied_head.
  - discriminate.
Qed.

Lemma compactLoop_quiet escape s rest :
  quiet s = true ->
  compactLoop escape scanInString 0 (s ++ rest)
  = s ++ compactLoop escape scanInString 0 rest.
Proof.
  induction s as [|c s IH]; intros H; [reflexivity|].
  simpl in H. apply andb_prop in H as [Hc Hs].
  cbn [append]. rewrite compactLoop_quietByte by exact Hc. now rewrite IH.
Qed.

(** A backslash and the byte after it. *)
Lemma compactLoop_backslash escape x rest :
  copied (byte_of x) = true ->
  compactLoop escape scanInString 0 (String "\" (String x rest))
  = String "\" (String x (compactLoop escape scanInString 0 rest)).
Proof.
  intros Hx.
  rewrite compactLoop_copy;
    [| reflexivity | intros _; now apply lineSeparator_head | discriminate].
  change (scanStep scanInString (byte_of "\")) with scanInStringEsc.
  rewrite compactLoop_copy;
    [reflexivity | now apply copied_html
     | intros _; now apply lineSeparator_head, copied_head | discriminate].
Qed.

(** An escape sequence: a backslash, a byte, and quiet bytes. *)
Lemma compactLoop_escape escape x tail rest :
  copied (byte_of x) = true -> quiet tail = true ->
  compactLoop escape scanInString 0 (String "\" (String x tail) ++ rest)
  = String "\" (String x tail) ++ compactLoop escape scanInString 0 rest.
Proof.
  intros Hx Ht. cbn [append].
  rewrite compactLoop_backslash by exact Hx.
  now rewrite compactLoop_quiet.
Qed.

Lemma hexDigit_quiet n : quietByte (byte_of (hexDigit n)) = true.
Proof.
  unfold hexDigit.
  destruct (N.to_nat n) as [|k]; [reflexivity|].
  do 15 (destruct k as [|k]; [reflexivity|]).
  reflexivity.
Qed.

Lemma compactLoop_escapeByte escape b rest :
  compactLoop escape scanInString 0 (escapeByte b ++ rest)
  = escapeByte b ++ compactLoop escape scanInString 0 rest.
Proof.
  unfold escapeByte. apply compactLoop_escape; [reflexivity|].
  cbn [quiet]. now rewrite !hexDigit_quiet.
Qed.

Lemma compactLoop_escapeASCII escape c rest :
  compactLoop escape scanInString 0 (escapeASCII c ++ rest)
  = escapeASCII c ++ compactLoop escape scanInString 0 rest.
Proof.
  unfold escapeASCII.
  destruct ((byte_of c =? 92) || (byte_of c =? 34))%N%bool eqn:Hq.
  - apply compactLoop_escape; [|reflexivity].
    apply orb_prop in Hq as [H|H]; apply N.eqb_eq in H; now rewrite H.
  - repeat (match goal with
            | |- context [if ?t then _ else _] =>
                destruct t; [now apply compactLoop_escape|]
            end).
    apply compactLoop_escapeByte.
Qed.

End StringLiterals.

(** ** Runes in string literals *)

Section Runes.

Import json text utf8.

Lemma first_spec b sz lo hi :
  first b = Some (sz, (lo, hi)) ->
  (sz = 2 \/ sz = 3 \/ sz = 4)%nat /\ (128 <= lo)%N /\ (hi <= 191)%N /\
  (b = 226%N -> sz = 3%nat).
Proof.
  unfold first.
  repeat match goal with
    | |- context [if ?t then _ else _] => destruct t eqn:?
    end;
    intros H; try discriminate H; injection H as <- <- <-; order_N;
    repeat split; auto; try lia.
Qed.

Lemma continuation_cont c : continuation (byte_of c) = true -> cont c.
Proof.
  unfold continuation, cont. intros H. apply andb_prop in H as [H1 H2].
  order_N. split; assumption.
Qed.

Lemma cont_quiet c : cont c -> quietByte (byte_of c) = true.
Proof.
  unfold cont, quietByte, copied. intros [Hlo Hhi].
  repeat (apply andb_true_intro; split); apply negb_true_iff, N.eqb_neq; lia.
Qed.

Lemma land_254 c :
  N.land (byte_of c) 254 = 168%N -> byte_of c = 168%N \/ byte_of c = 169%N.
Proof.
  destruct c as [[] [] [] [] [] [] [] []]; vm_compute; intros H;
    try discriminate H; auto.
Qed.

(** What [DecodeRuneInString] finds at a byte that is not ASCII: an invalid
    sequence, or a rune of two to four bytes, the bytes after the first
    being continuation bytes.  Three bytes that spell a line separator
    decode to one. *)
Lemma decode_cases c s' r size :
  (128 <= byte_of c)%N ->
  DecodeRuneInString (String c s') = (r, size) ->
  (r = RuneError /\ size = 1%nat) \/
  (size = 2%nat /\ byte_of c <> 226%N /\
   exists c1 t, s' = String c1 t /\ cont c1) \/
  (size = 3%nat /\
   exists c1 c2 t, s' = String c1 (String c2 t) /\ cont c1 /\ cont c2 /\
     (lineSeparator (String c s') = None \/ r = 8232%N \/ r = 8233%N)) \/
  (size = 4%nat /\ byte_of c <> 226%N /\
   exists c1 c2 c3 t, s' = String c1 (String c2 (String c3 t)) /\
     cont c1 /\ cont c2 /\ cont c3).
Proof.
  intros Hhigh. unfold DecodeRuneInString.
  destruct (byte_of c <? RuneSelf)%N eqn:Hlow.
  { unfold RuneSelf in Hlow. order_N. lia. }
  destruct (first (byte_of c)) as [[sz [lo hi]]|] eqn:Hf;
    [|intros [= <- <-]; auto].
  apply first_spec in Hf as (Hsz & Hlo & Hhi & H226).
  destruct (String.length (String c s') <? sz)%nat; [intros [= <- <-]; auto|].
  destruct s' as [|c1 s2]; [intros [= <- <-]; auto|].
  destruct ((byte_of c1 <? lo) || (hi <? byte_of c1))%N%bool eqn:Hr1;
    [intros [= <- <-]; auto|].
  apply orb_false_elim in Hr1 as [Hr1 Hr1']. order_N.
  assert (Hc1 : cont c1) by (unfold cont; lia).
  destruct (sz <=? 2)%nat eqn:H2.
  { intros [= <- <-]. right; left. split; [reflexivity|]. split.
    - intros E. apply H226 in E. subst sz. discriminate H2.
    - eauto. }
  destruct s2 as [|c2 s3]; [intros [= <- <-]; auto|].
  destruct (continuation (byte_of c2)) eqn:Hk2; simpl negb; cbv iota;
    [|intros [= <- <-]; auto].
  apply continuation_cont in Hk2.
  destruct (sz <=? 3)%nat eqn:H3.
  { intros [= <- <-]. right; right; left. split; [reflexivity|].
    exists c1, c2, s3.
    split; [reflexivity|]. split; [exact Hc1|]. split; [exact Hk2|].
    unfold lineSeparator.
    destruct ((byte_of c =? 226) && (byte_of c1 =? 128)
              && (N.land (byte_of c2) 254 =? 168))%N%bool eqn:Hls; [|now left].
    right. apply andb_prop in Hls as [Hls Hb2]. apply andb_prop in Hls as [Hb0 Hb1].
    order_N. rewrite Hb0, Hb1.
    destruct (land_254 _ Hb2) as [-> | ->]; [left | right]; reflexivity. }
  destruct s3 as [|c3 s4]; [intros [= <- <-]; auto|].
  destruct (continuation (byte_of c3)) eqn:Hk3; simpl negb; cbv iota;
    [|intros [= <- <-]; auto].
  apply continuation_cont in Hk3.
  intros [= <- <-]. right; right; right. split; [reflexivity|]. split.
  - intros E. apply H226 in E. subst sz. discriminate H3.
  - exists c1, c2, c3, s4. auto.
Qed.

End Runes.

Section StringLiteralCompacted.

Import json text utf8.

Lemma appendStringLoop_copy_flag escapeHTML copy s :
  appendStringLoop escapeHTML 0 copy s = appendStringLoop escapeHTML 0 true s.
Proof. destruct s; reflexivity. Qed.

Lemma htmlSafeSet_quiet b : htmlSafeSet b = true -> quietByte b = true.
Proof.
  unfold htmlSafeSet, safeSet, quietByte, copied. intros H.
  repeat (apply andb_prop in H as [H ?]).
  match goal with Hlt : (b <? 128)%N = true |- _ => apply N.ltb_lt in Hlt end.
  destruct (N.eqb_spec b 226) as [->|_]; [lia|].
  repeat (apply andb_true_intro; split); auto.
Qed.

Lemma high_copied c : (128 <= byte_of c)%N ->
  ((byte_of c =? 60) || (byte_of c =? 62) || (byte_of c =? 38))%N%bool = false.
Proof.
  intros H.
  destruct (N.eqb_spec (byte_of c) 60); [lia|].
  destruct (N.eqb_spec (byte_of c) 62); [lia|].
  destruct (N.eqb_spec (byte_of c) 38); [lia|reflexivity].
Qed.

(** The first byte of a rune that is kept. *)
Lemma compactLoop_lead escape c rest :
  (128 <= byte_of c)%N ->
  (escape = true -> lineSeparator (String c rest) = None) ->
  compactLoop escape scanInString 0 (String c rest)
  = String c (compactLoop escape scanInString 0 rest).
Proof.
  intros Hhigh Hsep.
  rewrite compactLoop_copy; [| now apply high_copied | exact Hsep | discriminate].
  unfold scanStep.
  destruct (N.eqb_spec (byte_of c) 34); [lia|].
  destruct (N.eqb_spec (byte_of c) 92); [lia|reflexivity].
Qed.

Lemma compactLoop_lead_other escape c rest :
  (128 <= byte_of c)%N -> byte_of c <> 226%N ->
  compactLoop escape scanInString 0 (String c rest)
  = String c (compactLoop escape scanInString 0 rest).
Proof.
  intros Hhigh Hne. apply compactLoop_lead; [exact Hhigh|].
  intros _. now apply lineSeparator_head, N.eqb_neq.
Qed.

Lemma compactLoop_cont escape c rest :
  cont c ->
  compactLoop escape scanInString 0 (String c rest)
  = String c (compactLoop escape scanInString 0 rest).
Proof. intros H. now apply compactLoop_quietByte, cont_quiet. Qed.

(** One turn of the loop of [appendString]: it writes a chunk and goes on
    with a shorter text. *)
Lemma appendStringLoop_step escapeHTML c s' :
  exists out s'',
    appendStringLoop escapeHTML 0 true (String c s')
    = out ++ appendStringLoop escapeHTML 0 true s'' /\
    (String.length s'' <= String.length s')%nat /\
    chunk escapeHTML out.
Proof.
  destruct (byte_of c <? 128)%N eqn:Hlow.
  - exists (if (htmlSafeSet (byte_of c) || (negb escapeHTML && safeSet (byte_of c)))%bool
            then String c "" else escapeASCII c), s'.
    split; [|split; [lia|]].
    + cbn [appendStringLoop]. unfold RuneSelf. now rewrite Hlow.
    + destruct (htmlSafeSet (byte_of c) || (negb escapeHTML && safeSet (byte_of c)))%bool
        eqn:Hs; [now apply chunk_safe | apply chunk_escape].
  - apply N.ltb_ge in Hlow.
    destruct (DecodeRuneInString (String c s')) as [r size] eqn:Hd.
    assert (Hloop : appendStringLoop escapeHTML 0 true (String c s') =
      if ((r =? RuneError)%N && (size =? 1)%nat)%bool then
        "\ufffd" ++ appendStringLoop escapeHTML 0 true s'
      else if ((r =? 8232) || (r =? 8233))%N then
        String "\" (String "u" (String "2" (String "0" (String "2"
          (String (hexDigit (N.land r 15)) "")))))
          ++ appendStringLoop escapeHTML (size - 1) false s'
      else String c "" ++ appendStringLoop escapeHTML (size - 1) true s').
    { cbn [appendStringLoop]. unfold RuneSelf.
      apply N.ltb_ge in Hlow. rewrite Hlow. rewrite Hd. reflexivity. }
    rewrite Hloop. clear Hloop.
    destruct (decode_cases c s' r size Hlow Hd)
      as [[-> ->] | [(-> & Hne & c1 & t & -> & H1)
         | [(-> & c1 & c2 & t & -> & H1 & H2 & Hsep)
           | (-> & Hne & c1 & c2 & c3 & t & -> & H1 & H2 & H3)]]].
    + exists "\ufffd", s'. split; [reflexivity|]. split; [lia|].
      apply chunk_invalid.
    + replace ((r =? RuneError)%N && (2 =? 1)%nat)%bool with false
        by now rewrite andb_false_r.
      destruct ((r =? 8232) || (r =? 8233))%N.
      * eexists _, t. split; [|split; [simpl; lia | apply chunk_separator]].
        cbn [Nat.sub appendStringLoop append]. now rewrite appendStringLoop_copy_flag.
      * exists (String c (String c1 "")), t. split; [reflexivity|].
        split; [simpl; lia|]. now apply chunk_rune2.
    + replace ((r =? RuneError)%N && (3 =? 1)%nat)%bool with false
        by now rewrite andb_false_r.
      destruct ((r =? 8232) || (r =? 8233))%N eqn:Hls.
      * eexists _, t. split; [|split; [simpl; lia | apply chunk_separator]].
        cbn [Nat.sub appendStringLoop append]. now rewrite appendStringLoop_copy_flag.
      * exists (String c (String c1 (String c2 ""))), t. split; [reflexivity|].
        split; [simpl; lia|]. apply chunk_rune3; try assumption.
        intros rest. apply orb_false_elim in Hls as [Ha Hb].
        apply N.eqb_neq in Ha, Hb.
        destruct Hsep as [Hsep | [E | E]]; [exact Hsep | contradiction | contradiction].
    + replace ((r =? RuneError)%N && (4 =? 1)%nat)%bool with false
        by now rewrite andb_false_r.
      destruct ((r =? 8232) || (r =? 8233))%N.
      * eexists _, t. split; [|split; [simpl; lia | apply chunk_separator]].
        cbn [Nat.sub appendStringLoop append]. now rewrite appendStringLoop_copy_flag.
      * exists (String c (String c1 (String c2 (String c3 "")))), t.
        split; [reflexivity|].
        split; [simpl; lia|]. now apply chunk_rune4.
Qed.

(** What holds of the empty text and is kept when a chunk is put in front
    holds of everything the loop writes. *)
Lemma appendStringLoop_chunks escapeHTML (P : string -> Prop) :
  P "" ->
  (forall out s, chunk escapeHTML out -> P s -> P (out ++ s)) ->
  forall s, P (appendStringLoop escapeHTML 0 true s).
Proof.
  intros Hnil Hstep.
  assert (bounded : forall n s, (String.length s <= n)%nat ->
            P (appendStringLoop escapeHTML 0 true s)).
  { induction n as [|n IH]; intros [|c s'] Hlen;
      try exact Hnil; [simpl in Hlen; lia|].
    destruct (appendStringLoop_step escapeHTML c s') as (out & s'' & -> & Hshort & Hout).
    apply Hstep; [exact Hout|]. apply IH. simpl in Hlen. lia. }
  intros s. apply (bounded (String.length s)). lia.
Qed.

(** A chunk written in HTML-safe mode is copied by the compaction and
    leaves the scanner inside the literal. *)
Lemma chunk_inString out :
  chunk true out ->
  forall escape rest,
    compactLoop escape scanInString 0 (out ++ rest)
    = out ++ compactLoop escape scanInString 0 rest.
Proof.
  intros H escape rest.
  destruct H as [c Hs | c | | r | c c1 Hc Hne H1 | c c1 c2 Hc H1 H2 Hsep
                 | c c1 c2 c3 Hc Hne H1 H2 H3].
  - cbn [negb andb] in Hs. rewrite orb_false_r in Hs.
    cbn [append]. now apply compactLoop_quietByte, htmlSafeSet_quiet.
  - apply compactLoop_escapeASCII.
  - now apply compactLoop_escape.
  - apply compactLoop_escape; [reflexivity|].
    cbn [quiet]. now rewrite hexDigit_quiet.
  - cbn [append]. rewrite compactLoop_lead_other by assumption.
    now rewrite compactLoop_cont.
  - cbn [append].
    rewrite compactLoop_lead; [now rewrite !compactLoop_cont | exact Hc |].
    intros _. apply Hsep.
  - cbn [append]. rewrite compactLoop_lead_other by assumption.
    now rewrite !compactLoop_cont.
Qed.

Lemma appendStringLoop_inString : forall s escape rest,
  compactLoop escape scanInString 0 (appendStringLoop true 0 true s ++ rest)
  = appendStringLoop true 0 true s ++ compactLoop escape scanInString 0 rest.
Proof.
  intros s. apply (appendStringLoop_chunks true
    (fun text => forall escape rest,
       compactLoop escape scanInString 0 (text ++ rest)
       = text ++ compactLoop escape scanInString 0 rest)).
  - reflexivity.
  - intros out text Hout IH escape rest.
    now rewrite !append_assoc, (chunk_inString out Hout), IH.
Qed.

(** A JSON string literal written in HTML-safe mode is compacted. *)
Lemma appendString_compacted s : compacted (appendString s true).
Proof.
  intros escape rest. unfold appendString. cbn [append].
  rewrite compactLoop_copy;
    [| reflexivity | intros _; now apply lineSeparator_head | reflexivity].
  change (scanStep scanOutside (byte_of quote)) with scanInString.
  rewrite !append_assoc, appendStringLoop_inString. cbn [append].
  rewrite compactLoop_copy;
    [| reflexivity | intros _; now apply lineSeparator_head | discriminate].
  reflexivity.
Qed.

End StringLiteralCompacted.

(** ** The texts of numbers *)

Section NumberTexts.

Import json text.

Lemma string_of_uint_bare (d : Decimal.uint) :
  bare (DecimalString.NilEmpty.string_of_uint d) = true.
Proof. induction d; simpl; auto. Qed.

Lemma FormatInt_bare i : bare (strconv.FormatInt i) = true.
Proof.
  unfold strconv.FormatInt.
  destruct (Z.to_int i) as [d|d]; simpl;
    destruct d; try reflexivity; apply string_of_uint_bare.
Qed.

Lemma bare_Forall s :
  bare s = true <->
  Forall (fun c => bareByte (byte_of c) = true) (list_ascii_of_string s).
Proof.
  induction s as [|c s IH]; simpl.
  - split; [constructor | reflexivity].
  - rewrite andb_true_iff, IH. split.
    + intros [Hc Hs]. now constructor.
    + intros H. inversion H; subst. now split.
Qed.

Lemma cleanExponent_bare b : bare b = true -> bare (cleanExponent b) = true.
Proof.
  intros H. unfold cleanExponent.
  destruct (rev (list_ascii_of_string b)) as [|c1 [|c2 [|c3 [|c4 front]]]] eqn:Hrev;
    try exact H.
  match goal with |- context [if ?t then _ else _] => destruct t end;
    [|exact H].
  apply bare_Forall. rewrite list_ascii_of_string_of_list_ascii.
  apply Forall_rev.
  apply bare_Forall, Forall_rev in H. rewrite Hrev in H.
  inversion H as [|? ? Hc1 H']; subst. inversion H' as [|? ? _ H'']; subst.
  now constructor.
Qed.

End NumberTexts.

(** ** The text the encoder writes for an object *)

Section EncoderTexts.

Import json text.

Variable AppendFloat : float -> ascii -> string.

(** [strconv.AppendFloat] writes digits, signs, a point, an exponent mark
    or the letters of [NaN] and [Inf]: bare bytes. *)
Hypothesis AppendFloat_bare : forall f fmt, bare (AppendFloat f fmt) = true.

Lemma floatEncoder_bare f b :
  floatEncoder AppendFloat f = Ok b -> bare b = true.
Proof.
  unfold floatEncoder.
  destruct (PrimFloat.is_infinity f || PrimFloat.is_nan f)%bool; [discriminate|].
  intros [= <-].
  match goal with |- context [if ?t then _ else _] => destruct t end; simpl.
  - apply cleanExponent_bare, AppendFloat_bare.
  - apply AppendFloat_bare.
Qed.

Lemma Forall2_compacted (A : Type) (enc : A -> result string) items texts :
  Forall (fun v => forall b, enc v = Ok b -> compacted b) items ->
  Forall2 (fun v t => enc v = Ok t) items texts ->
  Forall compacted texts.
Proof.
  intros Hall H2. induction H2 as [|v t items texts Hv _ IH]; [constructor|].
  inversion Hall; subst. constructor; auto.
Qed.

Lemma members_compacted entries texts :
  Forall compacted texts -> Forall compacted (members entries texts).
Proof.
  intros H. revert entries.
  induction H as [|t texts Ht _ IH]; intros [|e entries]; try constructor.
  - unfold memberText. apply compacted_app; [apply appendString_compacted|].
    apply (compacted_app ":"); [now apply bare_compacted | exact Ht].
  - apply IH.
Qed.

Lemma reflectValue_slice escapeHTML items :
  reflectValue AppendFloat escapeHTML (ASlice items) =
  match arrayLoop (reflectValue AppendFloat escapeHTML) 0 items "[" with
  | Ok buf => Ok (buf ++ "]")
  | Err err => Err err
  end.
Proof. reflexivity. Qed.

Lemma reflectValue_map escapeHTML o :
  reflectValue AppendFloat escapeHTML (AOrderedMap o) =
  match MarshalJSON AppendFloat o with
  | Ok b => Ok (appendCompact b escapeHTML)
  | Err err =>
      Err ("json: error calling MarshalJSON for type main.orderedMap: " ++ err)
  end.
Proof. reflexivity. Qed.

(** Whatever [json.Marshal] returns is compacted already. *)
Lemma Marshal_compacted : forall v b,
  Marshal AppendFloat v = Ok b -> compacted b.
Proof.
  unfold Marshal.
  induction v as [| [] | i | f | s | items IH | entries IH] using any_ind;
    intros b H.
  - injection H as <-. now apply bare_compacted.
  - injection H as <-. now apply bare_compacted.
  - injection H as <-. now apply bare_compacted.
  - injection H as <-. apply bare_compacted, FormatInt_bare.
  - apply floatEncoder_bare in H. now apply bare_compacted.
  - injection H as <-. apply appendString_compacted.
  - rewrite reflectValue_slice in H.
    destruct (arrayLoop _ 0 items "[") as [buf|] eqn:Hloop; [|discriminate H].
    injection H as <-. apply arrayLoop_ret in Hloop as [texts [H2 ->]].
    apply compacted_arrayText. eapply Forall2_compacted; eassumption.
  - rewrite reflectValue_map in H.
    destruct (MarshalJSON AppendFloat _) as [b0|] eqn:Hm; [|discriminate H].
    injection H as <-. apply MarshalJSON_with_ret in Hm as [texts [H2 ->]].
    assert (Hc : compacted (objectText (members entries texts))).
    { apply compacted_objectText, members_compacted.
      eapply (Forall2_compacted _ (fun e : mapEntry => Marshal AppendFloat (Value e)));
        [|exact H2].
      exact IH. }
    now rewrite compacted_appendCompact.
Qed.

(** [MarshalJSON]'s text goes through the compaction unchanged. *)
Lemma MarshalJSON_compacted o b :
  MarshalJSON AppendFloat o = Ok b -> compacted b.
Proof.
  intros H. apply MarshalJSON_with_ret in H as [texts [H2 ->]].
  apply compacted_objectText, members_compacted.
  clear -H2 AppendFloat_bare.
  induction H2 as [|e t es texts He _ IH]; constructor; [|exact IH].
  eapply Marshal_compacted, He.
Qed.

(** The object the encoder writes, in either mode: the members in stored
    order, each the key's literal, a colon and what [json.Marshal] makes
    of the value. *)
Lemma reflectValue_object escapeHTML o b :
  reflectValue AppendFloat escapeHTML (AOrderedMap o) = Ok b ->
  exists texts,
    Forall2 (fun e t => Marshal AppendFloat (Value e) = Ok t) (Entries o) texts /\
    b = objectText (members (Entries o) texts).
Proof.
  rewrite reflectValue_map.
  destruct (MarshalJSON AppendFloat o) as [b0|] eqn:Hm; [|discriminate].
  intros [= <-].
  rewrite (compacted_appendCompact _ _ (MarshalJSON_compacted _ _ Hm)).
  now apply MarshalJSON_with_ret.
Qed.

Lemma reflectValue_object_ok escapeHTML o texts :
  Forall2 (fun e t => Marshal AppendFloat (Value e) = Ok t) (Entries o) texts ->
  reflectValue AppendFloat escapeHTML (AOrderedMap o)
  = Ok (objectText (members (Entries o) texts)).
Proof.
  intros H2. rewrite reflectValue_map.
  pose proof (MarshalJSON_with_ok (Marshal AppendFloat) o texts H2) as Hm.
  fold (MarshalJSON AppendFloat o) in Hm. rewrite Hm.
  now rewrite (compacted_appendCompact _ _ (MarshalJSON_compacted _ _ Hm)).
Qed.

End EncoderTexts.

(** ** Bytes that never appear in the encoder's text *)

Section ByteFacts.

Import json text.

Variable p : N -> bool.

Lemma allBytes_app a b : allBytes p (a ++ b) = (allBytes p a && allBytes p b)%bool.
Proof.
  induction a as [|c a IH]; [reflexivity|].
  cbn [append allBytes]. now rewrite IH, andb_assoc.
Qed.

Hypothesis p_high : forall b, (128 <= b)%N -> p b = true.
Hypothesis p_escape : allBytes p escapeChars = true.

Lemma p_hexDigit n : p (byte_of (hexDigit n)) = true.
Proof.
  pose proof p_escape as H. unfold escapeChars in H. cbn in H.
  repeat (apply andb_prop in H as [? H]).
  unfold hexDigit.
  destruct (N.to_nat n) as [|k]; [assumption|].
  do 15 (destruct k as [|k]; [assumption|]).
  assumption.
Qed.

Lemma allBytes_escapeByte b : allBytes p (escapeByte b) = true.
Proof.
  pose proof p_escape as H. unfold escapeChars in H. cbn in H.
  repeat (apply andb_prop in H as [? H]).
  unfold escapeByte. cbn [allBytes]. rewrite !p_hexDigit.
  repeat (apply andb_true_intro; split); try reflexivity; assumption.
Qed.

Lemma allBytes_escapeASCII c : allBytes p (escapeASCII c) = true.
Proof.
  pose proof p_escape as H. unfold escapeChars in H. cbn in H.
  repeat (apply andb_prop in H as [? H]).
  unfold escapeASCII.
  destruct ((byte_of c =? 92) || (byte_of c =? 34))%N%bool eqn:Hq.
  - cbn [allBytes]. apply orb_prop in Hq as [E|E]; apply N.eqb_eq in E; rewrite E;
      repeat (apply andb_true_intro; split); try reflexivity; assumption.
  - repeat match goal with
      | |- context [if ?t then _ else _] =>
          destruct t;
          [cbn; repeat (apply andb_true_intro; split); try reflexivity; assumption|]
      end.
    apply allBytes_escapeByte.
Qed.

Variable escapeHTML : bool.
Hypothesis p_safe : forall b,
  (htmlSafeSet b || (negb escapeHTML && safeSet b))%bool = true -> p b = true.

Lemma chunk_allBytes out : chunk escapeHTML out -> allBytes p out = true.
Proof.
  pose proof p_escape as H. unfold escapeChars in H. cbn in H.
  repeat (apply andb_prop in H as [? H]).
  intros Hc.
  destruct Hc as [c Hs | c | | r | c c1 Hc Hne [K1 _] | c c1 c2 Hc [K1 _] [K2 _] Hsep
                  | c c1 c2 c3 Hc Hne [K1 _] [K2 _] [K3 _]].
  - cbn [allBytes]. now rewrite (p_safe _ Hs).
  - apply allBytes_escapeASCII.
  - cbn. repeat (apply andb_true_intro; split); try reflexivity; assumption.
  - cbn [allBytes]. rewrite p_hexDigit. cbn.
    repeat (apply andb_true_intro; split); try reflexivity; assumption.
  - cbn [allBytes]. now rewrite !p_high.
  - cbn [allBytes]. now rewrite !p_high.
  - cbn [allBytes]. now rewrite !p_high.
Qed.

Lemma appendStringLoop_allBytes s :
  allBytes p (appendStringLoop escapeHTML 0 true s) = true.
Proof.
  apply (appendStringLoop_chunks escapeHTML (fun text => allBytes p text = true)).
  - reflexivity.
  - intros out text Hout IH. now rewrite allBytes_app, (chunk_allBytes out Hout), IH.
Qed.

Lemma appendString_allBytes s : allBytes p (appendString s escapeHTML) = true.
Proof.
  pose proof p_escape as H. unfold escapeChars in H. cbn in H.
  repeat (apply andb_prop in H as [? H]).
  unfold appendString. cbn [append allBytes].
  rewrite allBytes_app, appendStringLoop_allBytes. cbn.
  repeat (apply andb_true_intro; split); try reflexivity; assumption.
Qed.

End ByteFacts.

Section LineAndHTML.

Import json text.

Lemma appendString_lineFree s escapeHTML : lineFree (appendString s escapeHTML) = true.
Proof.
  apply appendString_allBytes.
  - intros b Hb. apply negb_true_iff, N.eqb_neq. lia.
  - reflexivity.
  - intros b Hb. apply negb_true_iff, N.eqb_neq. intros ->.
    destruct escapeHTML; discriminate Hb.
Qed.

Lemma appendString_htmlFree s : htmlFree (appendString s true) = true.
Proof.
  apply appendString_allBytes.
  - intros b Hb. apply negb_true_iff.
    destruct (N.eqb_spec b 60); [lia|]. destruct (N.eqb_spec b 62); [lia|].
    destruct (N.eqb_spec b 38); [lia|]. reflexivity.
  - reflexivity.
  - intros b Hb. cbn [negb andb] in Hb. rewrite orb_false_r in Hb.
    unfold htmlSafeSet in Hb. repeat (apply andb_prop in Hb as [Hb ?]).
    apply negb_true_iff.
    destruct (b =? 60)%N; [discriminate|]. destruct (b =? 62)%N; [discriminate|].
    destruct (b =? 38)%N; [discriminate|]. reflexivity.
Qed.

Lemma bare_allBytes p s :
  (forall b, bareByte b = true -> p b = true) -> bare s = true -> allBytes p s = true.
Proof.
  intros Hp. induction s as [|c s IH]; [reflexivity|].
  cbn [bare allBytes]. intros H. apply andb_prop in H as [Hc Hs].
  now rewrite (Hp _ Hc), IH.
Qed.

Lemma bareByte_line b : bareByte b = true -> negb (b =? 10)%N = true.
Proof.
  unfold bareByte, isSpace. intros H. repeat (apply andb_prop in H as [H ?]).
  destruct (b =? 10)%N; [|reflexivity].
  rewrite !orb_true_r in *. discriminate.
Qed.

Lemma bareByte_html b :
  bareByte b = true -> negb ((b =? 60) || (b =? 62) || (b =? 38))%N = true.
Proof.
  unfold bareByte. intros H. repeat (apply andb_prop in H as [H ?]).
  destruct (b =? 60)%N; [discriminate|]. destruct (b =? 62)%N; [discriminate|].
  destruct (b =? 38)%N; [discriminate|]. reflexivity.
Qed.

End LineAndHTML.

Section EncoderBytes.

Import json text.

Variable AppendFloat : float -> ascii -> string.
Hypothesis AppendFloat_bare : forall f fmt, bare (AppendFloat f fmt) = true.

(** A test every bare byte passes, and every byte of a string literal
    written in the modes [covered]; HTML-safe mode, the mode of
    [json.Marshal], is one of them. *)
Variable p : N -> bool.
Variable covered : bool -> bool.
Hypothesis p_bare : forall b, bareByte b = true -> p b = true.
Hypothesis covered_true : covered true = true.
Hypothesis p_literal : forall escapeHTML s,
  covered escapeHTML = true -> allBytes p (appendString s escapeHTML) = true.

Lemma allBytes_commas texts :
  Forall (fun t => allBytes p t = true) texts -> allBytes p (commas texts) = true.
Proof.
  induction 1 as [|t texts Ht _ IH]; [reflexivity|].
  cbn [commas]. rewrite !allBytes_app, Ht, IH.
  now rewrite (bare_allBytes p "," p_bare).
Qed.

Lemma allBytes_concat texts :
  Forall (fun t => allBytes p t = true) texts ->
  allBytes p (String.concat "," texts) = true.
Proof.
  intros H. destruct H as [|t texts Ht Hts]; [reflexivity|].
  rewrite concat_commas, allBytes_app, Ht. now apply allBytes_commas.
Qed.

Lemma allBytes_members entries texts :
  Forall (fun t => allBytes p t = true) texts ->
  Forall (fun t => allBytes p t = true) (members entries texts).
Proof.
  intros H. revert entries.
  induction H as [|t texts Ht _ IH]; intros [|e entries]; try constructor.
  - unfold memberText. cbn [fst snd]. rewrite !allBytes_app, Ht.
    rewrite (p_literal true _ covered_true).
    now rewrite (bare_allBytes p ":" p_bare).
  - apply IH.
Qed.

Lemma Forall2_allBytes (A : Type) (enc : A -> result string) items texts :
  Forall (fun v => forall b, enc v = Ok b -> allBytes p b = true) items ->
  Forall2 (fun v t => enc v = Ok t) items texts ->
  Forall (fun t => allBytes p t = true) texts.
Proof.
  intros Hall H2. induction H2 as [|v t items texts Hv _ IH]; [constructor|].
  inversion Hall; subst. constructor; auto.
Qed.

(** Every byte of what the encoder writes passes the test. *)
Lemma reflectValue_allBytes : forall v escapeHTML b,
  covered escapeHTML = true ->
  reflectValue AppendFloat escapeHTML v = Ok b -> allBytes p b = true.
Proof.
  induction v as [| [] | i | f | s | items IH | entries IH] using any_ind;
    intros escapeHTML b Hcov H.
  - injection H as <-. now apply bare_allBytes.
  - injection H as <-. now apply bare_allBytes.
  - injection H as <-. now apply bare_allBytes.
  - injection H as <-. apply bare_allBytes; [exact p_bare | apply FormatInt_bare].
  - apply (floatEncoder_bare _ AppendFloat_bare) in H. now apply bare_allBytes.
  - injection H as <-. now apply p_literal.
  - rewrite reflectValue_slice in H.
    destruct (arrayLoop _ 0 items "[") as [buf|] eqn:Hloop; [|discriminate H].
    injection H as <-. apply arrayLoop_ret in Hloop as [texts [H2 ->]].
    unfold arrayText. rewrite !allBytes_app.
    rewrite (bare_allBytes p "[" p_bare), (bare_allBytes p "]" p_bare) by reflexivity.
    rewrite allBytes_concat; [reflexivity|].
    eapply Forall2_allBytes; [|exact H2].
    eapply Forall_impl; [|exact IH]. intros v Hv t Ht. now apply (Hv escapeHTML).
  - apply (reflectValue_object _ AppendFloat_bare) in H as (texts & H2 & ->).
    unfold objectText. rewrite !allBytes_app.
    rewrite (bare_allBytes p "{" p_bare), (bare_allBytes p "}" p_bare) by reflexivity.
    rewrite allBytes_concat; [reflexivity|].
    apply allBytes_members.
    eapply (Forall2_allBytes _ (fun e : mapEntry => Marshal AppendFloat (Value e)));
      [|exact H2].
    eapply Forall_impl; [|exact IH]. intros e He t Ht. now apply (He true).
Qed.

End EncoderBytes.

Section EncoderLines.

Import json text.

Variable AppendFloat : float -> ascii -> string.
Hypothesis AppendFloat_bare : forall f fmt, bare (AppendFloat f fmt) = true.

(** The encoder's text holds no newline, in either mode. *)
Lemma reflectValue_lineFree v escapeHTML b :
  reflectValue AppendFloat escapeHTML v = Ok b -> lineFree b = true.
Proof.
  apply (reflectValue_allBytes AppendFloat AppendFloat_bare _ (fun _ => true));
    try reflexivity.
  - apply bareByte_line.
  - intros e s _. apply appendString_lineFree.
Qed.

(** What [json.Marshal] returns holds none of [<], [>] and [&]. *)
Lemma Marshal_htmlFree v b :
  Marshal AppendFloat v = Ok b -> htmlFree b = true.
Proof.
  apply (reflectValue_allBytes AppendFloat AppendFloat_bare _ (fun e => e));
    try reflexivity.
  - apply bareByte_html.
  - intros e s ->. apply appendString_htmlFree.
Qed.

(** Nor does the text of an object, in either mode of the encoder. *)
Lemma object_htmlFree escapeHTML o b :
  reflectValue AppendFloat escapeHTML (AOrderedMap o) = Ok b -> htmlFree b = true.
Proof.
  intros H. apply (Marshal_htmlFree (AOrderedMap o)).
  apply (reflectValue_object _ AppendFloat_bare) in H as (texts & H2 & ->).
  now apply reflectValue_object_ok.
Qed.

End EncoderLines.

(** ** Keys *)

Section KeyFacts.

Import shape text.

Variable Decode : yaml.Node -> result any.

(** The loop reads a key node's text and nothing else of it. *)
Lemma mappingLoop_keysAlike (convert : yaml.Node -> outcome any) :
  forall c c' acc,
    keysAlike c c' -> mappingLoop convert c acc = mappingLoop convert c' acc.
Proof.
  induction c as [|k|k v c IH] using list_pair_ind; intros c' acc [Hlen Hp].
  - destruct c'; [reflexivity | discriminate Hlen].
  - destruct c' as [|k' [|v' c']]; try discriminate Hlen. reflexivity.
  - destruct c' as [|k' [|v' c']]; try discriminate Hlen.
    simpl in Hp. inversion Hp as [|? ? ? ? [Hk Hv] Hp']; subst.
    simpl in Hk, Hv. subst v'. simpl. rewrite Hk.
    destruct (convert v) as [cv|]; [|reflexivity]. simpl.
    apply IH. split; [simpl in Hlen; lia | exact Hp'].
Qed.

Lemma convertNode_keysAlike style tag value c c' :
  keysAlike c c' ->
  convertNode Decode (yaml.mkNode yaml.MappingNode style tag value c)
  = convertNode Decode (yaml.mkNode yaml.MappingNode style tag value c').
Proof.
  intros H. rewrite !convertNode_unfold. simpl.
  now rewrite (mappingLoop_keysAlike _ c c' [] H).
Qed.

(** The keys of the object a mapping node converts to: the texts of its
    key nodes, one per pair, in order. *)
Lemma convertNode_keys style tag value content v :
  convertNode Decode (yaml.mkNode yaml.MappingNode style tag value content) = Ret v ->
  exists o,
    v = AOrderedMap o /\
    List.length (Entries o) = List.length (pairs content) /\
    map Key (Entries o) = keyTexts content.
Proof.
  intros H. apply convertNode_mapping in H as [_ [vals [Hall ->]]].
  pose proof (Forall2_length Hall) as Hlen. symmetry in Hlen.
  eexists. split; [reflexivity|]. simpl. split.
  - now apply entriesOf_length.
  - now apply entriesOf_keys.
Qed.

(** The member texts of a converted mapping go with its pairs: each is the
    text of what the pair's value node converts to. *)
Lemma entriesOf_texts (M : any -> result string) : forall ps vals texts,
  Forall2 (fun p c => convertNode Decode (snd p) = Ret c) ps vals ->
  Forall2 (fun e t => M (Value e) = Ok t) (entriesOf ps vals) texts ->
  Forall2 (fun p t => exists c, convertNode Decode (snd p) = Ret c /\ M c = Ok t)
    ps texts.
Proof.
  intros ps vals texts Hconv. revert texts.
  induction Hconv as [|p c ps vals Hc _ IH]; intros texts Htexts.
  - inversion Htexts; subst. constructor.
  - unfold entriesOf in Htexts. simpl in Htexts.
    inversion Htexts as [|e t es texts' Ht Hrest]; subst.
    constructor; [exists c; split; assumption | now apply IH].
Qed.

Lemma members_keys : forall entries texts,
  members entries texts
  = map (fun kt => memberText (fst kt) (snd kt)) (combine (map Key entries) texts).
Proof.
  induction entries as [|e entries IH]; intros [|t texts]; try reflexivity.
  unfold members in *. simpl. now rewrite IH.
Qed.

Lemma appendStringLoop_safeText s :
  safeText s = true -> json.appendStringLoop true 0 true s = s.
Proof.
  induction s as [|c s IH]; intros H; [reflexivity|].
  simpl in H. apply andb_prop in H as [Hc Hs].
  cbn [json.appendStringLoop].
  assert (Hlow : (byte_of c <? utf8.RuneSelf)%N = true).
  { unfold json.htmlSafeSet, json.safeSet in Hc.
    repeat (apply andb_prop in Hc as [Hc ?]). assumption. }
  rewrite Hlow, Hc. simpl. now rewrite IH.
Qed.

(** A key of HTML-safe ASCII bytes is written between double quotes as it
    is. *)
Lemma appendString_safeText s :
  safeText s = true -> json.appendString s true = quoted s.
Proof.
  intros H. unfold json.appendString, quoted.
  now rewrite appendStringLoop_safeText.
Qed.

End KeyFacts.

(** ** Small mappings *)

Section SmallMappings.

Import shape text.

Variable Decode : yaml.Node -> result any.
Variable AppendFloat : float -> ascii -> string.
Hypothesis AppendFloat_bare : forall f fmt, bare (AppendFloat f fmt) = true.

Lemma convertNode_one_pair style tag value k1 v1 c1 :
  convertNode Decode v1 = Ret c1 ->
  convertNode Decode (yaml.mkNode yaml.MappingNode style tag value [k1; v1])
  = Ret (AOrderedMap (Build_orderedMap [Build_mapEntry (yaml.Value k1) c1])).
Proof.
  intros H1. rewrite convertNode_unfold.
  cbn [N.eqb Pos.eqb yaml.MappingNode mappingLoop].
  rewrite H1. reflexivity.
Qed.

Lemma convertNode_two_pairs style tag value k1 v1 k2 v2 c1 c2 :
  convertNode Decode v1 = Ret c1 -> convertNode Decode v2 = Ret c2 ->
  convertNode Decode (yaml.mkNode yaml.MappingNode style tag value [k1; v1; k2; v2])
  = Ret (AOrderedMap (Build_orderedMap
           [Build_mapEntry (yaml.Value k1) c1; Build_mapEntry (yaml.Value k2) c2])).
Proof.
  intros H1 H2. rewrite convertNode_unfold.
  cbn [N.eqb Pos.eqb yaml.MappingNode mappingLoop].
  rewrite H1. cbn [bind_outcome]. rewrite H2. reflexivity.
Qed.

Lemma reflectValue_one_entry escapeHTML key c t :
  Marshal AppendFloat c = Ok t ->
  reflectValue AppendFloat escapeHTML
    (AOrderedMap (Build_orderedMap [Build_mapEntry key c]))
  = Ok (objectText [memberText key t]).
Proof.
  intros H.
  change (objectText [memberText key t])
    with (objectText (members (Entries (Build_orderedMap [Build_mapEntry key c])) [t])).
  apply (reflectValue_object_ok _ AppendFloat_bare).
  repeat constructor; assumption.
Qed.

Lemma reflectValue_two_entries escapeHTML key1 key2 c1 c2 t1 t2 :
  Marshal AppendFloat c1 = Ok t1 -> Marshal AppendFloat c2 = Ok t2 ->
  reflectValue AppendFloat escapeHTML
    (AOrderedMap (Build_orderedMap [Build_mapEntry key1 c1; Build_mapEntry key2 c2]))
  = Ok (objectText [memberText key1 t1; memberText key2 t2]).
Proof.
  intros H1 H2.
  change (objectText [memberText key1 t1; memberText key2 t2])
    with (objectText
            (members (Entries (Build_orderedMap
                        [Build_mapEntry key1 c1; Build_mapEntry key2 c2])) [t1; t2])).
  apply (reflectValue_object_ok _ AppendFloat_bare).
  repeat constructor; assumption.
Qed.

Lemma map_eq_Forall2 (A B C : Type) (f : A -> C) (g : B -> C) :
  forall l l', map f l = map g l' -> Forall2 (fun x y => f x = g y) l l'.
Proof.
  induction l as [|x l IH]; intros [|y l'] H; try discriminate H; constructor.
  - now injection H.
  - apply IH. now injection H.
Qed.

End SmallMappings.

(** ** The samples meet what the theorems assume *)

Lemma Sample_AppendFloat_bare : forall f fmt, text.bare (Sample.AppendFloat f fmt) = true.
Proof.
  intros f fmt. unfold Sample.AppendFloat.
  destruct (Prim2SF f) as [[]|[]| |[] m e]; try reflexivity;
    (apply bare_app; [reflexivity | apply FormatInt_bare]).
Qed.

(** ** Facts about [run] and [main] *)

Section RunFacts.

Variable Unmarshal : string -> yaml.Node -> yaml.Node * option error.
Variable Decode : yaml.Node -> result any.
Variable AppendFloat : float -> ascii -> string.

(** A run that parses, converts and encodes without error writes the
    encoder's text and a newline, and exits with status 0. *)
Lemma main_success w data node first rest v b :
  stdin w = Ok data ->
  Unmarshal data yaml.zero = (node, None) ->
  yaml.Content node = first :: rest ->
  convertNode Decode first = Ret v ->
  reflectValue AppendFloat false v = Ok b ->
  stdoutErr w = None ->
  main Unmarshal Decode AppendFloat w
  = Ret (mkWorld (stdin w) (stdout w ++ b ++ newline) (stderr w) None, 0%Z).
Proof.
  destruct w as [input out err outErr]. cbn [stdin stdout stderr stdoutErr].
  intros -> Hparse Hcontent Hv Hb ->.
  unfold main, run. cbn [stdin]. rewrite Hparse, Hcontent, Hv.
  cbn [bind_outcome]. unfold Encode. rewrite Hb. reflexivity.
Qed.

(** A run whose parsed node has no content writes nothing to standard
    output, reports on standard error and exits with status 1. *)
Lemma main_empty w data node :
  stdin w = Ok data ->
  Unmarshal data yaml.zero = (node, None) ->
  yaml.Content node = [] ->
  main Unmarshal Decode AppendFloat w
  = Ret (mkWorld (stdin w) (stdout w)
           (stderr w ++ "yaml_to_json: empty document" ++ newline) (stdoutErr w),
         1%Z).
Proof.
  destruct w as [input out err outErr]. cbn [stdin stdout stderr stdoutErr].
  intros -> Hparse Hcontent.
  unfold main, run. cbn [stdin]. rewrite Hparse, Hcontent. reflexivity.
Qed.

(** A plain scalar converts to what the decoder makes of it. *)
Lemma convertNode_plain tag value v :
  Decode (Sample.plain tag value) = Ok v ->
  convertNode Decode (Sample.plain tag value) = Ret v.
Proof.
  intros H. unfold Sample.plain in *. rewrite convertNode_unfold.
  cbn [N.eqb Pos.eqb yaml.MappingNode yaml.SequenceNode yaml.ScalarNode].
  now rewrite H.
Qed.

End RunFacts.

(** ** Reading back the decimal form of an integer *)

Section DecimalForms.

Import yamlv3.





End DecimalForms.

Section IntegerTexts.

Import yamlv3.








End IntegerTexts.

(** ** Facts about the scalar resolution *)

Section ResolveFacts.

Import yamlv3.

Variable ParseFloat : string -> option float.


















End ResolveFacts.

(** ** When [convertNode] returns *)

Section ReachFacts.

Variable Decode : yaml.Node -> result any.

(** The loop over a mapping's children returns exactly when the children
    come in pairs and every value node converts. *)
Lemma mappingLoop_returns (convert : yaml.Node -> outcome any) : forall rest acc,
  (exists es, mappingLoop convert rest acc = Ret es) <->
  Nat.even (List.length rest) = true /\
  Forall (fun p => exists c, convert (snd p) = Ret c) (shape.pairs rest).
Proof.
  intros rest; induction rest as [|k|k v rest IH] using list_pair_ind; intros acc.
  - split; [intros _; split; [reflexivity | constructor] | intros _; now exists acc].
  - split; [intros [es H]; discriminate H | intros [H _]; discriminate H].
  - cbn [mappingLoop shape.pairs List.length Nat.even].
    destruct (convert v) as [c|msg] eqn:Hv; cbn [bind_outcome].
    + rewrite IH. split; intros [Hev Hall]; (split; [exact Hev|]).
      * constructor; [exists c; exact Hv | exact Hall].
      * now inversion Hall.
    + split; [intros [es H]; discriminate H|].
      intros [_ Hall]. inversion Hall as [|? ? [c Hc] _]; subst.
      cbn [snd] in Hc. congruence.
Qed.

(** The loop over a sequence's children returns exactly when every child
    converts. *)
Lemma sequenceLoop_returns (convert : yaml.Node -> outcome any) : forall children,
  (exists items, sequenceLoop convert children = Ret items) <->
  Forall (fun n => exists c, convert n = Ret c) children.
Proof.
  induction children as [|child children IH].
  - split; [constructor | now exists []].
  - cbn [sequenceLoop]. destruct (convert child) as [c|msg] eqn:Hc; cbn [bind_outcome].
    + split.
      * intros [items H].
        destruct (sequenceLoop convert children) as [cs|] eqn:Hcs; [|discriminate H].
        constructor; [now exists c | apply IH; now exists cs].
      * intros Hall. inversion Hall as [|? ? _ Hrest]; subst.
        apply IH in Hrest as [cs ->]. now exists (c :: cs).
    + split; [intros [items H]; discriminate H|].
      intros Hall. inversion Hall as [|? ? [c Hc'] _]; subst. congruence.
Qed.

(** Conversion returns exactly on the trees whose mapping nodes, where the
    function comes to them, have their children in pairs. *)
Lemma convertNode_returns : forall n,
  (exists v, convertNode Decode n = Ret v) <-> shape.reachedPaired n = true.
Proof.
  induction n as [kind style tag value content IH] using Node_ind.
  rewrite convertNode_unfold. cbn [shape.reachedPaired].
  destruct (kind =? yaml.MappingNode)%N.
  - transitivity (exists es, mappingLoop (convertNode Decode) content [] = Ret es).
    { split.
      - intros [v H]. destruct (mappingLoop _ content []) as [es|]; [eauto | discriminate H].
      - intros [es ->]. cbn. eauto. }
    rewrite mappingLoop_returns, andb_true_iff.
    apply and_iff_compat_l.
    clear - IH. induction content as [|k|k v content IHc] using list_pair_ind.
    + split; [reflexivity | constructor].
    + split; [reflexivity | constructor].
    + inversion IH as [|? ? _ IH']; subst. inversion IH' as [|? ? IHv IH'']; subst.
      cbn [shape.pairs]. rewrite andb_true_iff, <- (IHc IH''), <- IHv.
      split.
      * intros Hall. inversion Hall; subst. auto.
      * intros [Hv Hall]. constructor; assumption.
  - destruct (kind =? yaml.SequenceNode)%N.
    + transitivity (exists items, sequenceLoop (convertNode Decode) content = Ret items).
      { split.
        - intros [v H]. destruct (sequenceLoop _ content) as [items|]; [eauto | discriminate H].
        - intros [items ->]. cbn. eauto. }
      rewrite sequenceLoop_returns, forallb_forall, Forall_forall.
      rewrite Forall_forall in IH.
      split; intros H x Hx; apply (IH x Hx); now apply H.
    + destruct (kind =? yaml.ScalarNode)%N.
      * split; [reflexivity|]. intros _. destruct (Decode _); eauto.
      * destruct (kind =? yaml.DocumentNode)%N; [|split; eauto].
        destruct content as [|first rest]; [split; eauto|].
        inversion IH; subst. assumption.
Qed.

End ReachFacts.

(** ** What [convertNode] asks of the decoder *)

Section DecoderFrame.

(** The loops call the conversion on the value nodes and on the children,
    and on nothing else. *)
Lemma mappingLoop_ext (f g : yaml.Node -> outcome any) : forall rest acc,
  Forall (fun p => f (snd p) = g (snd p)) (shape.pairs rest) ->
  mappingLoop f rest acc = mappingLoop g rest acc.
Proof.
  intros rest; induction rest as [|k|k v rest IH] using list_pair_ind;
    intros acc Hall; [reflexivity | reflexivity |].
  cbn [shape.pairs] in Hall. inversion Hall as [|? ? Hv Hrest]; subst.
  cbn [snd] in Hv. cbn [mappingLoop]. rewrite Hv.
  destruct (g v); cbn [bind_outcome]; [now apply IH | reflexivity].
Qed.

Lemma sequenceLoop_ext (f g : yaml.Node -> outcome any) : forall children,
  Forall (fun n => f n = g n) children ->
  sequenceLoop f children = sequenceLoop g children.
Proof.
  induction 1 as [|child children Hc _ IH]; [reflexivity|].
  cbn [sequenceLoop]. now rewrite Hc, IH.
Qed.

(** The nodes handed to the decoder are scalar nodes. *)
Lemma decoded_scalar : forall n m,
  In m (shape.decoded n) -> yaml.Kind m = yaml.ScalarNode.
Proof.
  induction n as [kind style tag value content IH] using Node_ind.
  intros m. cbn [shape.decoded].
  destruct (kind =? yaml.MappingNode)%N.
  - induction content as [|k|k v content IHc] using list_pair_ind;
      [intros [] | intros [] |].
    inversion IH as [|? ? _ IH']; subst. inversion IH' as [|? ? IHv IH'']; subst.
    intros Hin. apply in_app_or in Hin as [Hin|Hin]; [now apply IHv | now apply IHc].
  - destruct (kind =? yaml.SequenceNode)%N.
    + induction IH as [|child content Hc _ IHc]; [intros []|].
      intros Hin. apply in_app_or in Hin as [Hin|Hin]; [now apply Hc | now apply IHc].
    + destruct (N.eqb_spec kind yaml.ScalarNode) as [->|_].
      * intros [<-|[]]. reflexivity.
      * destruct (kind =? yaml.DocumentNode)%N; [|intros []].
        destruct content as [|first rest]; [intros []|].
        inversion IH; subst. auto.
Qed.

(** Decoders that agree on the nodes handed to them give the same
    conversion. *)
Lemma convertNode_decoded (D1 D2 : yaml.Node -> result any) : forall n,
  (forall m, In m (shape.decoded n) -> D1 m = D2 m) ->
  convertNode D1 n = convertNode D2 n.
Proof.
  induction n as [kind style tag value content IH] using Node_ind.
  rewrite !convertNode_unfold. cbn [shape.decoded].
  destruct (kind =? yaml.MappingNode)%N.
  - intros Hagree. rewrite (mappingLoop_ext (convertNode D1) (convertNode D2));
      [reflexivity|].
    induction content as [|k|k v content IHc] using list_pair_ind;
      [constructor | constructor |].
    inversion IH as [|? ? _ IH']; subst. inversion IH' as [|? ? IHv IH'']; subst.
    cbn [shape.pairs]. constructor.
    + apply IHv. intros m Hm. apply Hagree, in_or_app. now left.
    + apply IHc; [exact IH''|]. intros m Hm. apply Hagree, in_or_app. now right.
  - destruct (kind =? yaml.SequenceNode)%N.
    + intros Hagree. rewrite (sequenceLoop_ext (convertNode D1) (convertNode D2));
        [reflexivity|].
      induction IH as [|child content Hc _ IHc]; [constructor|].
      constructor.
      * apply Hc. intros m Hm. apply Hagree, in_or_app. now left.
      * apply IHc. intros m Hm. apply Hagree, in_or_app. now right.
    + destruct (kind =? yaml.ScalarNode)%N.
      * intros Hagree. rewrite (Hagree _ (or_introl eq_refl)). reflexivity.
      * destruct (kind =? yaml.DocumentNode)%N; [|reflexivity].
        destruct content as [|first rest]; [reflexivity|].
        inversion IH; subst. auto.
Qed.

End DecoderFrame.

(** ** Errors in [MarshalJSON] and in the encoder *)

Section LoopErrors.

Variable Marshal : any -> result string.

(** The loop of [MarshalJSON] fails with the error of the first entry whose
    value does not encode. *)
Lemma entriesLoop_first_error : forall entries i buf err,
  entriesLoop Marshal i entries buf = Err err <->
  exists pre entry post,
    entries = (pre ++ entry :: post)%list /\
    Forall (fun e => exists t, Marshal (Value e) = Ok t) pre /\
    Marshal (Value entry) = Err err.
Proof.
  induction entries as [|e entries IH]; intros i buf err.
  - split; [discriminate|]. intros ([|? ?] & entry & post & H & _); discriminate H.
  - cbn [entriesLoop MarshalKey]. destruct (Marshal (Value e)) as [t|err'] eqn:Ht.
    + rewrite IH. split.
      * intros (pre & entry & post & -> & Hpre & Herr).
        exists (e :: pre), entry, post. split; [reflexivity|].
        split; [constructor; eauto | exact Herr].
      * intros ([|e' pre] & entry & post & Heq & Hpre & Herr).
        -- injection Heq as <- <-. congruence.
        -- injection Heq as <- ->. inversion Hpre; subst.
           exists pre, entry, post. auto.
    + split.
      * intros [= <-]. exists [], e, entries. split; [reflexivity|].
        split; [constructor | exact Ht].
      * intros ([|e' pre] & entry & post & Heq & Hpre & Herr).
        -- injection Heq as <- <-. congruence.
        -- injection Heq as <- ->. inversion Hpre as [|? ? [t Ht'] _]; subst. congruence.
Qed.

(** So does the array encoder, with the error of the first item that does
    not encode. *)
Lemma arrayLoop_first_error : forall items i buf err,
  arrayLoop Marshal i items buf = Err err <->
  exists pre item post,
    items = (pre ++ item :: post)%list /\
    Forall (fun v => exists t, Marshal v = Ok t) pre /\
    Marshal item = Err err.
Proof.
  induction items as [|v items IH]; intros i buf err.
  - split; [discriminate|]. intros ([|? ?] & item & post & H & _); discriminate H.
  - cbn [arrayLoop]. destruct (Marshal v) as [t|err'] eqn:Ht.
    + rewrite IH. split.
      * intros (pre & item & post & -> & Hpre & Herr).
        exists (v :: pre), item, post. split; [reflexivity|].
        split; [constructor; eauto | exact Herr].
      * intros ([|v' pre] & item & post & Heq & Hpre & Herr).
        -- injection Heq as <- <-. congruence.
        -- injection Heq as <- ->. inversion Hpre; subst.
           exists pre, item, post. auto.
    + split.
      * intros [= <-]. exists [], v, items. split; [reflexivity|].
        split; [constructor | exact Ht].
      * intros ([|v' pre] & item & post & Heq & Hpre & Herr).
        -- injection Heq as <- <-. congruence.
        -- injection Heq as <- ->. inversion Hpre as [|? ? [t Ht'] _]; subst. congruence.
Qed.

Lemma MarshalJSON_with_first_error o err :
  MarshalJSON_with Marshal o = Err err <->
  exists pre entry post,
    Entries o = (pre ++ entry :: post)%list /\
    Forall (fun e => exists t, Marshal (Value e) = Ok t) pre /\
    Marshal (Value entry) = Err err.
Proof.
  rewrite <- (entriesLoop_first_error (Entries o) 0 "{" err).
  unfold MarshalJSON_with. destruct (entriesLoop Marshal 0 (Entries o) "{").
  - split; discriminate.
  - split; intros [= ->]; reflexivity.
Qed.

End LoopErrors.

Section FiniteValues.

Import value.

Variable AppendFloat : float -> ascii -> string.

Lemma find_app (A : Type) (p : A -> bool) (l1 l2 : list A) :
  find p (l1 ++ l2)%list = match find p l1 with Some x => Some x | None => find p l2 end.
Proof. induction l1 as [|x l1 IH]; [reflexivity|]. cbn. destruct (p x); auto. Qed.

(** The floats of items that all encode hold no float that is not finite. *)
Lemma find_flat_map_none (A : Type) (enc : A -> result string)
  (fl : A -> list (nat * float)) pre :
  Forall (fun x => forall b, enc x = Ok b ->
            find (fun df => negb (finiteFloat (snd df))) (fl x) = None) pre ->
  Forall (fun x => exists t, enc x = Ok t) pre ->
  find (fun df => negb (finiteFloat (snd df))) (flat_map fl pre) = None.
Proof.
  induction 1 as [|x pre Hx _ IH]; intros Hok; [reflexivity|].
  inversion Hok as [|? ? [t Ht] Hrest]; subst.
  cbn [flat_map]. rewrite find_app, (Hx t Ht). now apply IH.
Qed.

Lemma Forall_app_inv (A : Type) (P : A -> Prop) l1 x l2 :
  Forall P (l1 ++ x :: l2)%list -> Forall P l1 /\ P x.
Proof.
  intros H. apply Forall_app in H as [H1 H2]. inversion H2; subst. auto.
Qed.

(** One mapping more around every float. *)
Lemma find_deeper (l : list (nat * float)) :
  find (fun df => negb (finiteFloat (snd df))) (map (fun df => (S (fst df), snd df)) l)
  = match find (fun df => negb (finiteFloat (snd df))) l with
    | Some df => Some (S (fst df), snd df)
    | None => None
    end.
Proof.
  induction l as [|[d f] l IH]; [reflexivity|].
  cbn [map find fst snd]. now destruct (negb (finiteFloat f)).
Qed.

(** A value that encodes holds no float that is not finite; the error of
    one that does not encode names the first such float, after the words
    of [MarshalerError] once for every mapping it lies in. *)
Lemma reflectValue_floats : forall v escapeHTML,
  (forall b, reflectValue AppendFloat escapeHTML v = Ok b -> firstNonFinite v = None) /\
  (forall err, reflectValue AppendFloat escapeHTML v = Err err ->
     exists depth f types,
       firstNonFinite v = Some (depth, f) /\ List.length types = depth /\
       err = wrapped types (unsupported AppendFloat f)).
Proof.
  unfold firstNonFinite.
  induction v as [| b0 | i | f | s | items IH | entries IH] using any_ind;
    intros escapeHTML; (split; [intros b H | intros err H]);
    try reflexivity; try discriminate H.
  - cbn [reflectValue] in H. unfold json.floatEncoder in H.
    cbn [floatsAt find snd]. unfold finiteFloat.
    destruct (PrimFloat.is_infinity f || PrimFloat.is_nan f)%bool; [discriminate H|].
    reflexivity.
  - cbn [reflectValue] in H. unfold json.floatEncoder in H.
    cbn [floatsAt find snd]. unfold finiteFloat.
    destruct (PrimFloat.is_infinity f || PrimFloat.is_nan f)%bool.
    + injection H as <-. exists 0%nat, f, []. repeat split.
    + discriminate H.
  - rewrite reflectValue_slice in H.
    destruct (arrayLoop _ 0 items "[") as [buf|] eqn:Hloop; [|discriminate H].
    apply arrayLoop_ret in Hloop as [texts [H2 _]].
    cbn [floatsAt]. apply (find_flat_map_none _ (reflectValue AppendFloat escapeHTML)).
    + eapply Forall_impl; [|exact IH]. intros v Hv t Ht. exact (proj1 (Hv escapeHTML) t Ht).
    + clear -H2. induction H2; constructor; eauto.
  - rewrite reflectValue_slice in H.
    destruct (arrayLoop _ 0 items "[") as [buf|err'] eqn:Hloop; [discriminate H|].
    injection H as <-.
    apply arrayLoop_first_error in Hloop as (pre & item & post & -> & Hpre & Herr).
    apply Forall_app_inv in IH as [IHpre IHitem].
    destruct (proj2 (IHitem escapeHTML) _ Herr) as (depth & f & types & Hf & Hlen & ->).
    exists depth, f, types. split; [|split; [exact Hlen | reflexivity]].
    cbn [floatsAt]. rewrite flat_map_app, find_app.
    rewrite (find_flat_map_none _ (reflectValue AppendFloat escapeHTML) floatsAt pre).
    + cbn [flat_map]. now rewrite find_app, Hf.
    + eapply Forall_impl; [|exact IHpre]. intros v Hv t Ht. exact (proj1 (Hv escapeHTML) t Ht).
    + exact Hpre.
  - rewrite reflectValue_map in H.
    destruct (MarshalJSON AppendFloat _) as [b0|] eqn:Hm; [|discriminate H].
    apply MarshalJSON_with_ret in Hm as [texts [H2 _]]. cbn [Entries] in H2.
    cbn [floatsAt Entries]. rewrite find_deeper.
    rewrite (find_flat_map_none (mapEntry_of any)
               (fun e => Marshal AppendFloat (Value e)) (fun e => floatsAt (Value e)) entries);
      [reflexivity | |].
    + eapply Forall_impl; [|exact IH]. intros e He t Ht. exact (proj1 (He true) t Ht).
    + clear -H2. induction H2; constructor; eauto.
  - rewrite reflectValue_map in H.
    destruct (MarshalJSON AppendFloat _) as [b0|err'] eqn:Hm; [discriminate H|].
    injection H as <-.
    apply MarshalJSON_with_first_error in Hm as (pre & entry & post & Heq & Hpre & Herr).
    cbn [Entries] in Heq. subst entries.
    apply Forall_app_inv in IH as [IHpre IHentry].
    destruct (proj2 (IHentry true) _ Herr) as (depth & f & types & Hf & Hlen & ->).
    exists (S depth), f, ("main.orderedMap" :: types).
    split; [|split; [cbn [List.length]; now rewrite Hlen | reflexivity]].
    cbn [floatsAt Entries]. rewrite find_deeper, flat_map_app, find_app.
    rewrite (find_flat_map_none (mapEntry_of any)
               (fun e => Marshal AppendFloat (Value e)) (fun e => floatsAt (Value e)) pre).
    + cbn [flat_map]. now rewrite find_app, Hf.
    + eapply Forall_impl; [|exact IHpre]. intros e He t Ht. exact (proj1 (He true) t Ht).
    + exact Hpre.
Qed.

(** The floats with their depths are the floats. *)
Lemma floatsAt_floats : forall v, map snd (floatsAt v) = floats v.
Proof.
  induction v as [| b0 | i | f | s | items IH | entries IH] using any_ind;
    try reflexivity.
  - cbn [floatsAt floats]. induction IH as [|v items Hv _ IHl]; [reflexivity|].
    cbn [flat_map]. now rewrite map_app, Hv, IHl.
  - cbn [floatsAt floats Entries]. rewrite map_map. cbn [snd].
    change (fun x : nat * float => snd x) with (@snd nat float).
    induction IH as [|e entries He _ IHl]; [reflexivity|].
    cbn [flat_map]. now rewrite map_app, He, IHl.
Qed.

Lemma finite_firstNonFinite v : finite v = true <-> firstNonFinite v = None.
Proof.
  unfold finite, firstNonFinite. rewrite <- floatsAt_floats.
  induction (floatsAt v) as [|[d f] l IH]; [split; reflexivity|].
  cbn [map forallb find snd]. destruct (finiteFloat f); cbn [negb andb]; [exact IH|].
  split; discriminate.
Qed.

Lemma reflectValue_finite v escapeHTML :
  (exists b, reflectValue AppendFloat escapeHTML v = Ok b) <-> finite v = true.
Proof.
  rewrite finite_firstNonFinite.
  destruct (reflectValue_floats v escapeHTML) as [Hok Herr]. split.
  - intros [b Hb]. eauto.
  - intros Hnone. destruct (reflectValue AppendFloat escapeHTML v) as [b|err]; [eauto|].
    destruct (Herr err eq_refl) as (depth & f & types & Hf & _). congruence.
Qed.

End FiniteValues.

(** ** The courses of [main] *)

Section MainFacts.

Variable Unmarshal : string -> yaml.Node -> yaml.Node * option error.
Variable Decode : yaml.Node -> result any.
Variable AppendFloat : float -> ascii -> string.

(** [main] along each [return] of [run] that reports an error, and along
    a panic of [convertNode]. *)
Lemma main_read_error w err :
  stdin w = Err err ->
  main Unmarshal Decode AppendFloat w = Ret (failed w ("read stdin: " ++ err)).
Proof. intros H. unfold main, run. now rewrite H. Qed.

Lemma main_parse_error w data node err :
  stdin w = Ok data -> Unmarshal data yaml.zero = (node, Some err) ->
  main Unmarshal Decode AppendFloat w = Ret (failed w ("parse yaml: " ++ err)).
Proof. intros H1 H2. unfold main, run. now rewrite H1, H2. Qed.

Lemma main_encode_error w data node first rest v err :
  stdin w = Ok data -> Unmarshal data yaml.zero = (node, None) ->
  yaml.Content node = first :: rest ->
  convertNode Decode first = Ret v ->
  reflectValue AppendFloat false v = Err err ->
  main Unmarshal Decode AppendFloat w = Ret (failed w ("write json: " ++ err)).
Proof.
  intros H1 H2 H3 H4 H5. unfold main, run, Encode.
  now rewrite H1, H2, H3, H4; cbn [bind_outcome]; rewrite H5.
Qed.

Lemma main_write_error w data node first rest v b err :
  stdin w = Ok data -> Unmarshal data yaml.zero = (node, None) ->
  yaml.Content node = first :: rest ->
  convertNode Decode first = Ret v ->
  reflectValue AppendFloat false v = Ok b ->
  stdoutErr w = Some err ->
  main Unmarshal Decode AppendFloat w = Ret (failed w ("write json: " ++ err)).
Proof.
  intros H1 H2 H3 H4 H5 H6. destruct w as [input out errs outErr].
  cbn [stdin stdoutErr] in *. subst.
  unfold main, run, Encode, writeStdout. cbn [stdin stdoutErr].
  now rewrite H2, H3, H4; cbn [bind_outcome]; rewrite H5.
Qed.

Lemma main_panic w data node first rest msg :
  stdin w = Ok data -> Unmarshal data yaml.zero = (node, None) ->
  yaml.Content node = first :: rest ->
  convertNode Decode first = Panic msg ->
  main Unmarshal Decode AppendFloat w = Panic msg.
Proof.
  intros H1 H2 H3 H4. unfold main, run. now rewrite H1, H2, H3, H4.
Qed.

(** Every run takes one of the courses. *)
Lemma main_course w : course Unmarshal Decode AppendFloat w (main Unmarshal Decode AppendFloat w).
Proof.
  destruct (stdin w) as [data|err] eqn:H1.
  2: { rewrite (main_read_error _ _ H1). now constructor. }
  destruct (Unmarshal data yaml.zero) as [node [err|]] eqn:H2.
  { rewrite (main_parse_error _ _ _ _ H1 H2). econstructor; eassumption. }
  destruct (yaml.Content node) as [|first rest] eqn:H3.
  { rewrite (main_empty _ _ _ _ _ _ H1 H2 H3). eapply course_empty; eassumption. }
  destruct (convertNode Decode first) as [v|msg] eqn:H4.
  2: { rewrite (main_panic _ _ _ _ _ _ H1 H2 H3 H4). eapply course_panic; eassumption. }
  destruct (reflectValue AppendFloat false v) as [b|err] eqn:H5.
  2: { rewrite (main_encode_error _ _ _ _ _ _ _ H1 H2 H3 H4 H5).
       eapply course_encode; eassumption. }
  destruct (stdoutErr w) as [err|] eqn:H6.
  - rewrite (main_write_error _ _ _ _ _ _ _ _ H1 H2 H3 H4 H5 H6).
    eapply course_write; eassumption.
  - rewrite (main_success _ _ _ _ _ _ _ _ _ _ H1 H2 H3 H4 H5 H6).
    eapply course_done; eassumption.
Qed.

End MainFacts.

(** ** Control characters *)

Section ControlFacts.

Import json text.

Lemma controlFree_app a b :
  controlFree (a ++ b) = (controlFree a && controlFree b)%bool.
Proof. apply allBytes_app. Qed.

Lemma appendString_controlFree s escapeHTML :
  controlFree (appendString s escapeHTML) = true.
Proof.
  apply appendString_allBytes.
  - intros b Hb. apply N.leb_le. lia.
  - reflexivity.
  - intros b Hb. unfold htmlSafeSet, safeSet in Hb.
    destruct (32 <=? b)%N; [reflexivity|].
    cbn [andb] in Hb. rewrite andb_false_r in Hb. discriminate Hb.
Qed.

Lemma string_of_uint_controlFree (d : Decimal.uint) :
  controlFree (DecimalString.NilEmpty.string_of_uint d) = true.
Proof. induction d; simpl; auto. Qed.

Lemma FormatInt_controlFree i : controlFree (strconv.FormatInt i) = true.
Proof.
  unfold strconv.FormatInt.
  destruct (Z.to_int i) as [d|d]; simpl;
    destruct d; try reflexivity; apply string_of_uint_controlFree.
Qed.

Lemma allBytes_Forall p s :
  allBytes p s = true <->
  Forall (fun c => p (byte_of c) = true) (list_ascii_of_string s).
Proof.
  induction s as [|c s IH]; simpl.
  - split; [constructor | reflexivity].
  - rewrite andb_true_iff, IH. split.
    + intros [Hc Hs]. now constructor.
    + intros H. inversion H; subst. now split.
Qed.

Lemma cleanExponent_allBytes p b :
  allBytes p b = true -> allBytes p (cleanExponent b) = true.
Proof.
  intros H. unfold cleanExponent.
  destruct (rev (list_ascii_of_string b)) as [|c1 [|c2 [|c3 [|c4 front]]]] eqn:Hrev;
    try exact H.
  match goal with |- context [if ?t then _ else _] => destruct t end;
    [|exact H].
  apply allBytes_Forall. rewrite list_ascii_of_string_of_list_ascii.
  apply Forall_rev.
  apply allBytes_Forall, Forall_rev in H. rewrite Hrev in H.
  inversion H as [|? ? Hc1 H']; subst. inversion H' as [|? ? _ H'']; subst.
  now constructor.
Qed.

Lemma controlFree_commas texts :
  Forall (fun t => controlFree t = true) texts -> controlFree (commas texts) = true.
Proof.
  induction 1 as [|t texts Ht _ IH]; [reflexivity|].
  cbn [commas]. now rewrite !controlFree_app, Ht, IH.
Qed.

Lemma controlFree_concat texts :
  Forall (fun t => controlFree t = true) texts ->
  controlFree (String.concat "," texts) = true.
Proof.
  intros H. destruct H as [|t texts Ht Hts]; [reflexivity|].
  rewrite concat_commas, controlFree_app, Ht. now apply controlFree_commas.
Qed.

Lemma controlFree_members entries texts :
  Forall (fun t => controlFree t = true) texts ->
  Forall (fun t => controlFree t = true) (members entries texts).
Proof.
  intros H. revert entries.
  induction H as [|t texts Ht _ IH]; intros [|e entries]; try constructor.
  - unfold memberText. cbn [fst snd].
    now rewrite !controlFree_app, Ht, appendString_controlFree.
  - apply IH.
Qed.

Variable AppendFloat : float -> ascii -> string.
Hypothesis AppendFloat_bare : forall f fmt, bare (AppendFloat f fmt) = true.
Hypothesis AppendFloat_controlFree : forall f fmt, controlFree (AppendFloat f fmt) = true.

Lemma floatEncoder_controlFree f b :
  floatEncoder AppendFloat f = Ok b -> controlFree b = true.
Proof.
  unfold floatEncoder.
  destruct (PrimFloat.is_infinity f || PrimFloat.is_nan f)%bool; [discriminate|].
  intros [= <-].
  match goal with |- context [if ?t then _ else _] => destruct t end; simpl.
  - apply cleanExponent_allBytes, AppendFloat_controlFree.
  - apply AppendFloat_controlFree.
Qed.

(** The encoder's text holds no control character, in either mode. *)
Lemma reflectValue_controlFree : forall v escapeHTML b,
  reflectValue AppendFloat escapeHTML v = Ok b -> controlFree b = true.
Proof.
  induction v as [| [] | i | f | s | items IH | entries IH] using any_ind;
    intros escapeHTML b H.
  - now injection H as <-.
  - now injection H as <-.
  - now injection H as <-.
  - injection H as <-. apply FormatInt_controlFree.
  - now apply floatEncoder_controlFree in H.
  - injection H as <-. apply appendString_controlFree.
  - rewrite reflectValue_slice in H.
    destruct (arrayLoop _ 0 items "[") as [buf|] eqn:Hloop; [|discriminate H].
    injection H as <-. apply arrayLoop_ret in Hloop as [texts [H2 ->]].
    unfold arrayText. rewrite !controlFree_app, controlFree_concat; [reflexivity|].
    clear -IH H2. induction H2 as [|v t items texts Hv _ IH2]; [constructor|].
    inversion IH; subst. constructor; eauto.
  - apply (reflectValue_object _ AppendFloat_bare) in H as (texts & H2 & ->).
    unfold objectText. rewrite !controlFree_app, controlFree_concat; [reflexivity|].
    apply controlFree_members. cbn [Entries] in H2.
    clear -IH H2. induction H2 as [|e t es texts He _ IH2]; [constructor|].
    inversion IH; subst. constructor; eauto.
Qed.

End ControlFacts.

Lemma Sample_AppendFloat_controlFree :
  forall f fmt, text.controlFree (Sample.AppendFloat f fmt) = true.
Proof.
  intros f fmt. unfold Sample.AppendFloat.
  destruct (Prim2SF f) as [[]|[]| |[] m e]; try reflexivity;
    (rewrite controlFree_app; apply andb_true_intro; split;
     [reflexivity | apply FormatInt_controlFree]).
Qed.

(** * The claims *)

(** C1.  For every mapping node, at every depth, the object emitted has the
    keys in the order of the key/value pairs of the node: the value
    [convertNode] returns follows the node tree in source order; the
    encoder writes an object's members in the stored order of the entries;
    so the text written for a mapping node is the list of its members, pair
    by pair: the key node's text as the name, the converted value node's
    text as the value. *)
Theorem order_preservation
  (Decode : yaml.Node -> result any) (AppendFloat : float -> ascii -> string)
  (AppendFloat_bare : forall f fmt, text.bare (AppendFloat f fmt) = true) :
  (forall n v, convertNode Decode n = Ret v -> shape.inSourceOrder n v) /\
  (forall escapeHTML o b,
     reflectValue AppendFloat escapeHTML (AOrderedMap o) = Ok b ->
     exists texts,
       Forall2 (fun e t => Marshal AppendFloat (Value e) = Ok t) (Entries o) texts /\
       b = text.objectText (text.members (Entries o) texts)) /\
  (forall escapeHTML style tag value content v b,
     convertNode Decode (yaml.mkNode yaml.MappingNode style tag value content) = Ret v ->
     reflectValue AppendFloat escapeHTML v = Ok b ->
     exists texts,
       Forall2
         (fun pair t =>
            exists c,
              convertNode Decode (snd pair) = Ret c /\ Marshal AppendFloat c = Ok t)
         (shape.pairs content) texts /\
       b = text.objectText
             (map (fun kt => text.memberText (fst kt) (snd kt))
                (combine (shape.keyTexts content) texts))).
Proof.
  split; [apply convertNode_inSourceOrder|]. split.
  - intros escapeHTML o b. now apply reflectValue_object.
  - intros escapeHTML style tag value content v b Hv Hb.
    apply convertNode_mapping in Hv as (_ & vals & Hconv & ->).
    apply (reflectValue_object _ AppendFloat_bare) in Hb as (texts & H2 & ->).
    cbn [Entries] in *. exists texts. split.
    + now apply (entriesOf_texts Decode (Marshal AppendFloat) _ vals).
    + rewrite members_keys. unfold shape.keyTexts.
      rewrite entriesOf_keys; [reflexivity|].
      symmetry. exact (Forall2_length Hconv).
Qed.

(** C1, a run on the widget document: name, count, tags, active. *)
Lemma order_preservation_witness :
  (forall f fmt, text.bare (Sample.AppendFloat f fmt) = true) /\
  exists v,
    convertNode Sample.Decode Sample.widgetDocument = Ret v /\
    shape.inSourceOrder Sample.widgetDocument v.
Proof.
  split; [exact Sample_AppendFloat_bare|].
  eexists. split; [reflexivity|].
  apply (proj1 (order_preservation Sample.Decode Sample.AppendFloat
                  Sample_AppendFloat_bare)).
  reflexivity.
Defined.

(** C2, what the code does.  A string at the top level or in a sequence at
    the top level is written by the encoder with HTML escaping off, and
    [<], [>] and [&] stay as they are.  A string that is a value (or a key)
    of a mapping is written by [json.Marshal] inside [MarshalJSON], with
    HTML escaping on, whatever the encoder's setting: the three characters
    come out as [\u003c], [\u003e] and [\u0026], and the text of an
    object never holds one of them (given a float printer that writes bare
    bytes).  The program run on [a: <b> & c] prints the escaped form. *)
Theorem html_escaped_inside_mappings (AppendFloat : float -> ascii -> string) :
  (forall s, reflectValue AppendFloat false (AString s) = Ok (json.appendString s false)) /\
  (forall s,
     reflectValue AppendFloat false (ASlice [AString s])
     = Ok ("[" ++ json.appendString s false ++ "]")) /\
  (forall escapeHTML key s,
     reflectValue AppendFloat escapeHTML
       (AOrderedMap (Build_orderedMap [Build_mapEntry key (AString s)]))
     = Ok ("{" ++ json.appendString key true ++ ":" ++ json.appendString s true ++ "}")) /\
  (forall escapeHTML o b,
     (forall f fmt, text.bare (AppendFloat f fmt) = true) ->
     reflectValue AppendFloat escapeHTML (AOrderedMap o) = Ok b ->
     text.htmlFree b = true) /\
  json.appendString "<b> & c" false = text.quoted "<b> & c" /\
  json.appendString "<b> & c" true = text.quoted "\u003cb\u003e \u0026 c" /\
  main Sample.Unmarshal Sample.Decode Sample.AppendFloat (Sample.start Sample.htmlText)
  = Ret (mkWorld (Ok Sample.htmlText)
           ("{" ++ text.quoted "a" ++ ":"
                ++ text.quoted "\u003cb\u003e \u0026 c" ++ "}" ++ newline)
           "" None, 0%Z) /\
  main Sample.Unmarshal Sample.Decode Sample.AppendFloat (Sample.start Sample.htmlListText)
  = Ret (mkWorld (Ok Sample.htmlListText)
           ("[" ++ text.quoted "<b> & c" ++ "]" ++ newline) "" None, 0%Z).
Proof.
  split; [reflexivity|]. split; [reflexivity|].
  split; [|split; [|repeat split; reflexivity]].
  2: { intros escapeHTML o b Hbare. now apply object_htmlFree. }
  intros escapeHTML key s. rewrite reflectValue_map.
  unfold MarshalJSON, MarshalJSON_with.
  cbn [Entries entriesLoop Nat.ltb Nat.leb MarshalKey Key Value Marshal reflectValue].
  rewrite compacted_appendCompact; [f_equal; string_norm; reflexivity|].
  apply (compacted_app "{"); [now apply bare_compacted|].
  rewrite !append_assoc.
  apply compacted_app; [apply appendString_compacted|].
  apply (compacted_app ":"); [now apply bare_compacted|].
  apply compacted_app; [apply appendString_compacted | now apply bare_compacted].
Qed.

(** C2, a run: the object written for [a: <b> & c] holds none of the three
    characters. *)
Lemma html_escaped_inside_mappings_witness :
  (forall f fmt, text.bare (Sample.AppendFloat f fmt) = true) /\
  exists b,
    reflectValue Sample.AppendFloat false
      (AOrderedMap (Build_orderedMap [Build_mapEntry "a" (AString "<b> & c")])) = Ok b /\
    text.htmlFree b = true.
Proof.
  split; [exact Sample_AppendFloat_bare|].
  eexists. split; [reflexivity|].
  apply (proj1 (proj2 (proj2 (proj2
           (html_escaped_inside_mappings Sample.AppendFloat)))) false
           (Build_orderedMap [Build_mapEntry "a" (AString "<b> & c")]));
    [exact Sample_AppendFloat_bare | reflexivity].
Defined.



(** C4, as amended.  [convertNode] returns a value on every node tree whose
    mapping nodes all have an even number of children, as the parser
    builds them; a scalar the decoder fails on becomes its raw text as a
    string; a node of a kind other than mapping, sequence, scalar or
    document becomes null; and a mapping node with an odd number of
    children never returns a value (the index [i+1] is out of range). *)
Theorem convertNode_total_on_paired (Decode : yaml.Node -> result any) :
  (forall n, shape.paired n = true -> exists v, convertNode Decode n = Ret v) /\
  (forall n err,
     yaml.Kind n = yaml.ScalarNode -> Decode n = Err err ->
     convertNode Decode n = Ret (AString (yaml.Value n))) /\
  (forall n,
     yaml.Kind n <> yaml.MappingNode -> yaml.Kind n <> yaml.SequenceNode ->
     yaml.Kind n <> yaml.ScalarNode -> yaml.Kind n <> yaml.DocumentNode ->
     convertNode Decode n = Ret ANil) /\
  (forall style tag value content,
     Nat.even (List.length content) = false ->
     exists msg,
       convertNode Decode (yaml.mkNode yaml.MappingNode style tag value content)
       = Panic msg).
Proof.
  split; [apply convertNode_paired|]. split; [|split].
  - intros [kind style tag value content] err Hk He. simpl in Hk. subst kind.
    rewrite convertNode_unfold. simpl. now rewrite He.
  - intros [kind style tag value content] Hm Hs Hc Hd.
    simpl in Hm, Hs, Hc, Hd. rewrite convertNode_unfold.
    apply N.eqb_neq in Hm, Hs, Hc, Hd. now rewrite Hm, Hs, Hc, Hd.
  - intros style tag value content Hodd. rewrite convertNode_unfold. simpl.
    destruct (mappingLoop_odd (convertNode Decode) content [] Hodd) as [msg ->].
    exists msg. reflexivity.
Qed.

(** C4, a run: the widget document converts, and a scalar tagged as an
    integer that no decoder reads falls back to its text. *)
Lemma convertNode_total_on_paired_witness :
  shape.paired Sample.widgetDocument = true /\
  (exists v, convertNode Sample.Decode Sample.widgetDocument = Ret v) /\
  convertNode (fun _ => Err "cannot decode") (Sample.plain "!!int" "abc")
  = Ret (AString "abc").
Proof.
  split; [reflexivity|]. split.
  - apply (proj1 (convertNode_total_on_paired Sample.Decode)). reflexivity.
  - apply (proj1 (proj2 (convertNode_total_on_paired (fun _ => Err "cannot decode")))
             (Sample.plain "!!int" "abc") "cannot decode"); reflexivity.
Defined.

(** C4, as stated, fails: a mapping node with a single child (a key and no
    value) makes [convertNode] panic. *)
Lemma convertNode_odd_mapping_panics :
  convertNode Sample.Decode (Sample.mapping [ Sample.plain "!!str" "a" ])
  = Panic "runtime error: index out of range".
Proof. reflexivity. Qed.

(** C5.  A mapping with a repeated key keeps one entry per source pair:
    the object has as many entries as the node has pairs, its keys are the
    key nodes' texts in source order, so a text occurs among the keys as
    often as among the key nodes; for two pairs with the same key, both
    members are written, under the same name, the first pair first. *)
Theorem duplicate_keys_kept
  (Decode : yaml.Node -> result any) (AppendFloat : float -> ascii -> string)
  (AppendFloat_bare : forall f fmt, text.bare (AppendFloat f fmt) = true) :
  (forall style tag value content v,
     convertNode Decode (yaml.mkNode yaml.MappingNode style tag value content) = Ret v ->
     exists o,
       v = AOrderedMap o /\
       List.length (Entries o) = List.length (shape.pairs content) /\
       map Key (Entries o) = shape.keyTexts content /\
       forall key,
         count_occ string_dec (map Key (Entries o)) key
         = count_occ string_dec (shape.keyTexts content) key) /\
  (forall escapeHTML style tag value k1 v1 k2 v2 c1 c2 t1 t2,
     yaml.Value k1 = yaml.Value k2 ->
     convertNode Decode v1 = Ret c1 -> convertNode Decode v2 = Ret c2 ->
     Marshal AppendFloat c1 = Ok t1 -> Marshal AppendFloat c2 = Ok t2 ->
     exists v,
       convertNode Decode
         (yaml.mkNode yaml.MappingNode style tag value [k1; v1; k2; v2]) = Ret v /\
       reflectValue AppendFloat escapeHTML v
       = Ok (text.objectText
               [ text.memberText (yaml.Value k1) t1;
                 text.memberText (yaml.Value k1) t2 ])).
Proof.
  split.
  - intros style tag value content v H.
    apply convertNode_keys in H as (o & -> & Hlen & Hkeys).
    exists o. repeat split; try assumption. intros key. now rewrite Hkeys.
  - intros escapeHTML style tag value k1 v1 k2 v2 c1 c2 t1 t2 Hk H1 H2 Ht1 Ht2.
    eexists. split; [apply convertNode_two_pairs; eassumption|].
    rewrite <- Hk. now apply reflectValue_two_entries.
Qed.

(** C5, a run: [a: 1] then [a: 2] gives two members named [a]. *)
Lemma duplicate_keys_kept_witness :
  (forall f fmt, text.bare (Sample.AppendFloat f fmt) = true) /\
  exists v,
    convertNode Sample.Decode
      (Sample.mapping [ Sample.plain "!!str" "a"; Sample.plain "!!int" "1";
                        Sample.plain "!!str" "a"; Sample.plain "!!int" "2" ]) = Ret v /\
    reflectValue Sample.AppendFloat false v
    = Ok ("{" ++ text.quoted "a" ++ ":1," ++ text.quoted "a" ++ ":2}").
Proof.
  split; [exact Sample_AppendFloat_bare|].
  exact (proj2 (duplicate_keys_kept Sample.Decode Sample.AppendFloat
                  Sample_AppendFloat_bare)
           false 0%N "!!map" "" (Sample.plain "!!str" "a") (Sample.plain "!!int" "1")
           (Sample.plain "!!str" "a") (Sample.plain "!!int" "2")
           (AInt 1) (AInt 2) "1" "2"
           eq_refl eq_refl eq_refl eq_refl eq_refl).
Defined.

(** C6.  The key of every entry is the raw text of the key node: the keys
    of the object are the key nodes' texts; a key node may be swapped for
    any node of the same text, whatever its kind, tag and style (so
    whatever the text would resolve to), without changing the result; and
    a key of plain ASCII text, such as one that reads as a number, a
    boolean or null, is written between double quotes, as a JSON string. *)
Theorem keys_are_raw_text
  (Decode : yaml.Node -> result any) (AppendFloat : float -> ascii -> string)
  (AppendFloat_bare : forall f fmt, text.bare (AppendFloat f fmt) = true) :
  (forall style tag value content v,
     convertNode Decode (yaml.mkNode yaml.MappingNode style tag value content) = Ret v ->
     exists o,
       v = AOrderedMap o /\
       Forall2 (fun p e => Key e = yaml.Value (fst p)) (shape.pairs content) (Entries o)) /\
  (forall style tag value content content',
     shape.keysAlike content content' ->
     convertNode Decode (yaml.mkNode yaml.MappingNode style tag value content)
     = convertNode Decode (yaml.mkNode yaml.MappingNode style tag value content')) /\
  (forall escapeHTML style tag value keyNode valueNode c t,
     text.safeText (yaml.Value keyNode) = true ->
     convertNode Decode valueNode = Ret c -> Marshal AppendFloat c = Ok t ->
     exists v,
       convertNode Decode
         (yaml.mkNode yaml.MappingNode style tag value [keyNode; valueNode]) = Ret v /\
       reflectValue AppendFloat escapeHTML v
       = Ok ("{" ++ text.quoted (yaml.Value keyNode) ++ ":" ++ t ++ "}")).
Proof.
  split; [|split].
  - intros style tag value content v H.
    apply convertNode_keys in H as (o & -> & _ & Hkeys).
    exists o. split; [reflexivity|].
    apply Forall2_flip. unfold shape.keyTexts in Hkeys.
    now apply (map_eq_Forall2 _ _ _ Key (fun p => yaml.Value (fst p))).
  - intros. now apply convertNode_keysAlike.
  - intros escapeHTML style tag value keyNode valueNode c t Hsafe Hc Ht.
    eexists. split; [apply convertNode_one_pair; eassumption|].
    rewrite (reflectValue_one_entry _ AppendFloat_bare _ _ _ _ Ht).
    unfold text.objectText, text.memberText. cbn [String.concat].
    rewrite (appendString_safeText _ Hsafe). f_equal.
    string_norm. reflexivity.
Qed.

(** C6, a run: the key [42], tagged as an integer by the parser, is the
    member name ["42"]. *)
Lemma keys_are_raw_text_witness :
  (forall f fmt, text.bare (Sample.AppendFloat f fmt) = true) /\
  text.safeText "42" = true /\
  exists v,
    convertNode Sample.Decode
      (Sample.mapping [ Sample.plain "!!int" "42"; Sample.plain "!!str" "x" ]) = Ret v /\
    reflectValue Sample.AppendFloat false v
    = Ok ("{" ++ text.quoted "42" ++ ":" ++ text.quoted "x" ++ "}").
Proof.
  split; [exact Sample_AppendFloat_bare|]. split; [reflexivity|].
  exact (proj2 (proj2 (keys_are_raw_text Sample.Decode Sample.AppendFloat
                         Sample_AppendFloat_bare))
           false 0%N "!!map" "" (Sample.plain "!!int" "42") (Sample.plain "!!str" "x")
           (AString "x") (text.quoted "x") eq_refl eq_refl eq_refl).
Defined.

(** C7.  When parsing leaves a node without content, and so when standard
    input is empty (the parser then leaves the node as it was, the zero
    node), the program writes nothing to standard output, writes
    [yaml_to_json: empty document] to standard error and exits with
    status 1. *)
Theorem empty_input_fails
  (Unmarshal : string -> yaml.Node -> yaml.Node * option error)
  (Decode : yaml.Node -> result any) (AppendFloat : float -> ascii -> string) :
  (forall w data node,
     stdin w = Ok data ->
     Unmarshal data yaml.zero = (node, None) ->
     yaml.Content node = [] ->
     main Unmarshal Decode AppendFloat w
     = Ret (mkWorld (stdin w) (stdout w)
              (stderr w ++ "yaml_to_json: empty document" ++ newline) (stdoutErr w),
            1%Z)) /\
  (forall w,
     stdin w = Ok "" ->
     Unmarshal "" yaml.zero = (yaml.zero, None) ->
     main Unmarshal Decode AppendFloat w
     = Ret (mkWorld (stdin w) (stdout w)
              (stderr w ++ "yaml_to_json: empty document" ++ newline) (stdoutErr w),
            1%Z)).
Proof.
  split.
  - apply main_empty.
  - intros w Hin Hparse. now apply (main_empty _ _ _ w "" yaml.zero).
Qed.

(** C7, a run on empty input. *)
Lemma empty_input_fails_witness :
  Sample.Unmarshal "" yaml.zero = (yaml.zero, None) /\
  main Sample.Unmarshal Sample.Decode Sample.AppendFloat (Sample.start "")
  = Ret (mkWorld (Ok "") "" ("yaml_to_json: empty document" ++ newline) None, 1%Z).
Proof.
  split; [reflexivity|].
  exact (proj2 (empty_input_fails Sample.Unmarshal Sample.Decode Sample.AppendFloat)
           (Sample.start "") eq_refl eq_refl).
Defined.

(** C8.  On success the program writes the encoder's text for the converted
    root node and one newline after it, and exits with status 0.  For the
    widget text, parsed into the tree the parser builds for it and with the
    scalars decoded as their texts read, the output is the line of the
    specification and the newline.  The encoder's text holds no newline
    itself (given a float printer that writes bare bytes): the output is
    one line. *)
Theorem output_is_one_value_and_newline
  (Unmarshal : string -> yaml.Node -> yaml.Node * option error)
  (Decode : yaml.Node -> result any) (AppendFloat : float -> ascii -> string) :
  (forall w data node first rest v b,
     stdin w = Ok data ->
     Unmarshal data yaml.zero = (node, None) ->
     yaml.Content node = first :: rest ->
     convertNode Decode first = Ret v ->
     reflectValue AppendFloat false v = Ok b ->
     stdoutErr w = None ->
     main Unmarshal Decode AppendFloat w
     = Ret (mkWorld (stdin w) (stdout w ++ b ++ newline) (stderr w) None, 0%Z)) /\
  (forall w,
     stdin w = Ok Sample.widgetText ->
     Unmarshal Sample.widgetText yaml.zero = (Sample.widgetDocument, None) ->
     Decode (Sample.plain "!!str" "Widget") = Ok (AString "Widget") ->
     Decode (Sample.plain "!!int" "3") = Ok (AInt 3) ->
     Decode (Sample.plain "!!str" "a") = Ok (AString "a") ->
     Decode (Sample.plain "!!str" "b") = Ok (AString "b") ->
     Decode (Sample.plain "!!bool" "true") = Ok (ABool true) ->
     stdoutErr w = None ->
     main Unmarshal Decode AppendFloat w
     = Ret (mkWorld (stdin w) (stdout w ++ Sample.widgetJSON ++ newline) (stderr w) None,
            0%Z)) /\
  (forall escapeHTML v b,
     (forall f fmt, text.bare (AppendFloat f fmt) = true) ->
     reflectValue AppendFloat escapeHTML v = Ok b ->
     text.lineFree b = true).
Proof.
  split; [apply main_success|].
  split; [|intros escapeHTML v b Hbare; now apply reflectValue_lineFree].
  intros w Hin Hparse Hwidget H3 Ha Hb Htrue Hout.
  eapply main_success with
    (v := AOrderedMap (Build_orderedMap
            [ Build_mapEntry "name" (AString "Widget");
              Build_mapEntry "count" (AInt 3);
              Build_mapEntry "tags" (ASlice [AString "a"; AString "b"]);
              Build_mapEntry "active" (ABool true) ]));
    [exact Hin | exact Hparse | reflexivity | | reflexivity | exact Hout].
  unfold Sample.mapping. rewrite convertNode_unfold.
  cbn [N.eqb Pos.eqb yaml.MappingNode mappingLoop].
  rewrite (convertNode_plain _ _ _ _ Hwidget), (convertNode_plain _ _ _ _ H3),
    (convertNode_plain _ _ _ _ Htrue).
  unfold Sample.flowSequence. rewrite convertNode_unfold.
  cbn [N.eqb Pos.eqb yaml.MappingNode yaml.SequenceNode sequenceLoop].
  rewrite (convertNode_plain _ _ _ _ Ha), (convertNode_plain _ _ _ _ Hb).
  reflexivity.
Qed.

(** C8, a run on the widget text. *)
Lemma output_is_one_value_and_newline_witness :
  Sample.Unmarshal Sample.widgetText yaml.zero = (Sample.widgetDocument, None) /\
  main Sample.Unmarshal Sample.Decode Sample.AppendFloat (Sample.start Sample.widgetText)
  = Ret (mkWorld (Ok Sample.widgetText) (Sample.widgetJSON ++ newline) "" None, 0%Z).
Proof.
  split; [reflexivity|].
  exact (proj1 (proj2 (output_is_one_value_and_newline
                         Sample.Unmarshal Sample.Decode Sample.AppendFloat))
           (Sample.start Sample.widgetText)
           eq_refl eq_refl eq_refl eq_refl eq_refl eq_refl eq_refl eq_refl).
Defined.

(** C9.  When the stream holds a second document after the first, the
    program succeeds on the first one: it writes the encoder's text for the
    root of the first document and a newline, and exits with status 0;
    nothing of what follows the first document is looked at. *)
Theorem first_document_is_converted
  (parse : string -> result (option (yaml.Node * string)))
  (Decode : yaml.Node -> result any) (AppendFloat : float -> ascii -> string) :
  forall w data doc rest doc2 rest2 first others v b,
    stdin w = Ok data ->
    parse data = Ok (Some (doc, rest)) ->
    parse rest = Ok (Some (doc2, rest2)) ->
    yaml.Content doc = first :: others ->
    convertNode Decode first = Ret v ->
    reflectValue AppendFloat false v = Ok b ->
    stdoutErr w = None ->
    main (yamlv3.Unmarshal parse) Decode AppendFloat w
    = Ret (mkWorld (stdin w) (stdout w ++ b ++ newline) (stderr w) None, 0%Z).
Proof.
  intros w data doc rest doc2 rest2 first others v b Hin Hfirst _ Hcontent Hv Hb Hout.
  eapply main_success; try eassumption.
  unfold yamlv3.Unmarshal. now rewrite Hfirst.
Qed.

(** C9, a run: of [a: 1], [---], [b: 2] the first document is printed. *)
Lemma first_document_is_converted_witness :
  Sample.parse Sample.twoDocumentsText = Ok (Some (Sample.firstDocument, Sample.secondText)) /\
  Sample.parse Sample.secondText = Ok (Some (Sample.secondDocument, "")) /\
  main (yamlv3.Unmarshal Sample.parse) Sample.Decode Sample.AppendFloat
    (Sample.start Sample.twoDocumentsText)
  = Ret (mkWorld (Ok Sample.twoDocumentsText)
           ("{" ++ text.quoted "a" ++ ":1}" ++ newline) "" None, 0%Z).
Proof.
  split; [reflexivity|]. split; [reflexivity|].
  exact (first_document_is_converted Sample.parse Sample.Decode Sample.AppendFloat
           (Sample.start Sample.twoDocumentsText) Sample.twoDocumentsText
           Sample.firstDocument Sample.secondText Sample.secondDocument ""
           (Sample.mapping [ Sample.plain "!!str" "a"; Sample.plain "!!int" "1" ]) []
           (AOrderedMap (Build_orderedMap [Build_mapEntry "a" (AInt 1)]))
           ("{" ++ text.quoted "a" ++ ":1}")
           eq_refl eq_refl eq_refl eq_refl eq_refl eq_refl eq_refl).
Defined.

(** C10.  A key node that carries no text (a mapping or a sequence used as
    a key: the parser leaves the [Value] field of such nodes empty) gives
    the key [""]: every such pair becomes an entry named [""]; two such key
    nodes, however different, give the same result; and two pairs with
    such keys are written as two members named [""]. *)
Theorem complex_keys_collapse
  (Decode : yaml.Node -> result any) (AppendFloat : float -> ascii -> string)
  (AppendFloat_bare : forall f fmt, text.bare (AppendFloat f fmt) = true) :
  (forall style tag value content v,
     convertNode Decode (yaml.mkNode yaml.MappingNode style tag value content) = Ret v ->
     exists o,
       v = AOrderedMap o /\
       Forall2 (fun p e => yaml.Value (fst p) = "" -> Key e = "")
         (shape.pairs content) (Entries o)) /\
  (forall style tag value k k' valueNode rest,
     yaml.Value k = "" -> yaml.Value k' = "" ->
     convertNode Decode
       (yaml.mkNode yaml.MappingNode style tag value (k :: valueNode :: rest))
     = convertNode Decode
         (yaml.mkNode yaml.MappingNode style tag value (k' :: valueNode :: rest))) /\
  (forall escapeHTML style tag value k1 v1 k2 v2 c1 c2 t1 t2,
     yaml.Value k1 = "" -> yaml.Value k2 = "" ->
     convertNode Decode v1 = Ret c1 -> convertNode Decode v2 = Ret c2 ->
     Marshal AppendFloat c1 = Ok t1 -> Marshal AppendFloat c2 = Ok t2 ->
     exists v,
       convertNode Decode
         (yaml.mkNode yaml.MappingNode style tag value [k1; v1; k2; v2]) = Ret v /\
       reflectValue AppendFloat escapeHTML v
       = Ok ("{" ++ text.quoted "" ++ ":" ++ t1 ++ ","
                 ++ text.quoted "" ++ ":" ++ t2 ++ "}")).
Proof.
  split; [|split].
  - intros style tag value content v H.
    apply convertNode_keys in H as (o & -> & _ & Hkeys).
    exists o. split; [reflexivity|].
    unfold shape.keyTexts in Hkeys. symmetry in Hkeys.
    apply (map_eq_Forall2 _ _ _ (fun p => yaml.Value (fst p)) Key) in Hkeys.
    eapply Forall2_impl; [|exact Hkeys].
    intros p e Heq Hempty. simpl in Heq. congruence.
  - intros style tag value k k' valueNode rest Hk Hk'.
    apply convertNode_keysAlike. split; [reflexivity|].
    simpl. constructor.
    + simpl. split; [congruence | reflexivity].
    + clear. induction (shape.pairs rest); constructor; auto.
  - intros escapeHTML style tag value k1 v1 k2 v2 c1 c2 t1 t2 Hk1 Hk2 H1 H2 Ht1 Ht2.
    eexists. split; [apply convertNode_two_pairs; eassumption|].
    rewrite (reflectValue_two_entries _ AppendFloat_bare _ _ _ _ _ _ _ Ht1 Ht2).
    rewrite Hk1, Hk2. f_equal.
    unfold text.objectText, text.memberText. cbn [String.concat].
    change (json.appendString "" true) with (text.quoted "").
    string_norm. reflexivity.
Qed.

(** C10, a run: the keys [[x]] and [[y]] of the sample document both become
    [""]. *)
Lemma complex_keys_collapse_witness :
  (forall f fmt, text.bare (Sample.AppendFloat f fmt) = true) /\
  exists v,
    convertNode Sample.Decode
      (Sample.mapping
         [ Sample.flowSequence [ Sample.plain "!!str" "x" ]; Sample.plain "!!int" "1";
           Sample.flowSequence [ Sample.plain "!!str" "y" ]; Sample.plain "!!int" "2" ])
    = Ret v /\
    reflectValue Sample.AppendFloat false v
    = Ok ("{" ++ text.quoted "" ++ ":1," ++ text.quoted "" ++ ":2}").
Proof.
  split; [exact Sample_AppendFloat_bare|].
  exact (proj2 (proj2 (complex_keys_collapse Sample.Decode Sample.AppendFloat
                         Sample_AppendFloat_bare))
           false 0%N "!!map" ""
           (Sample.flowSequence [ Sample.plain "!!str" "x" ]) (Sample.plain "!!int" "1")
           (Sample.flowSequence [ Sample.plain "!!str" "y" ]) (Sample.plain "!!int" "2")
           (AInt 1) (AInt 2) "1" "2"
           eq_refl eq_refl eq_refl eq_refl eq_refl eq_refl).
Defined.

(** * Further properties of the program *)

(** ** How a run ends *)

(** X1.  A run whose standard input cannot be read, or does not parse,
    ends there: the error is reported on standard error after
    [yaml_to_json: read stdin: ] or [yaml_to_json: parse yaml: ], nothing
    is written to standard output and the exit status is 1, whatever the
    decoder and the encoder would have done. *)
Theorem input_failures_reported
  (Unmarshal : string -> yaml.Node -> yaml.Node * option error)
  (Decode : yaml.Node -> result any) (AppendFloat : float -> ascii -> string) :
  (forall w err,
     stdin w = Err err ->
     main Unmarshal Decode AppendFloat w
     = Ret (mkWorld (stdin w) (stdout w)
              (stderr w ++ "yaml_to_json: read stdin: " ++ err ++ newline)
              (stdoutErr w), 1%Z)) /\
  (forall w data node err,
     stdin w = Ok data ->
     Unmarshal data yaml.zero = (node, Some err) ->
     main Unmarshal Decode AppendFloat w
     = Ret (mkWorld (stdin w) (stdout w)
              (stderr w ++ "yaml_to_json: parse yaml: " ++ err ++ newline)
              (stdoutErr w), 1%Z)).
Proof.
  split.
  - intros w err H. rewrite (main_read_error _ _ _ _ _ H).
    unfold failed. now rewrite !append_assoc.
  - intros w data node err H1 H2. rewrite (main_parse_error _ _ _ _ _ _ _ H1 H2).
    unfold failed. now rewrite !append_assoc.
Qed.

(** X1, two runs: a read that fails, and a text the parser refuses. *)
Lemma input_failures_reported_witness :
  main Sample.Unmarshal Sample.Decode Sample.AppendFloat
    (mkWorld (Err "read /dev/stdin: input/output error") "" "" None)
  = Ret (mkWorld (Err "read /dev/stdin: input/output error") ""
           ("yaml_to_json: read stdin: read /dev/stdin: input/output error" ++ newline)
           None, 1%Z) /\
  main (Sample.reports "yaml: line 1: did not find expected node content")
    Sample.Decode Sample.AppendFloat (Sample.start "a: [")
  = Ret (mkWorld (Ok "a: [") ""
           ("yaml_to_json: parse yaml: yaml: line 1: did not find expected node content"
              ++ newline)
           None, 1%Z).
Proof.
  split.
  - exact (proj1 (input_failures_reported Sample.Unmarshal Sample.Decode
                    Sample.AppendFloat)
             (mkWorld (Err "read /dev/stdin: input/output error") "" "" None)
             "read /dev/stdin: input/output error" eq_refl).
  - exact (proj2 (input_failures_reported
                    (Sample.reports "yaml: line 1: did not find expected node content")
                    Sample.Decode Sample.AppendFloat)
             (Sample.start "a: [") "a: [" yaml.zero _ eq_refl eq_refl).
Defined.

(** X2.  When the converted value does not encode, or the write to
    standard output fails, the error is reported on standard error after
    [yaml_to_json: write json: ], standard output is left as it was and
    the exit status is 1.  A write that fails is one that writes nothing,
    as [writeStdout] has it. *)
Theorem output_failures_reported
  (Unmarshal : string -> yaml.Node -> yaml.Node * option error)
  (Decode : yaml.Node -> result any) (AppendFloat : float -> ascii -> string) :
  (forall w data node first rest v err,
     stdin w = Ok data ->
     Unmarshal data yaml.zero = (node, None) ->
     yaml.Content node = first :: rest ->
     convertNode Decode first = Ret v ->
     reflectValue AppendFloat false v = Err err ->
     main Unmarshal Decode AppendFloat w
     = Ret (mkWorld (stdin w) (stdout w)
              (stderr w ++ "yaml_to_json: write json: " ++ err ++ newline)
              (stdoutErr w), 1%Z)) /\
  (forall w data node first rest v b err,
     stdin w = Ok data ->
     Unmarshal data yaml.zero = (node, None) ->
     yaml.Content node = first :: rest ->
     convertNode Decode first = Ret v ->
     reflectValue AppendFloat false v = Ok b ->
     stdoutErr w = Some err ->
     main Unmarshal Decode AppendFloat w
     = Ret (mkWorld (stdin w) (stdout w)
              (stderr w ++ "yaml_to_json: write json: " ++ err ++ newline)
              (stdoutErr w), 1%Z)).
Proof.
  split.
  - intros w data node first rest v err H1 H2 H3 H4 H5.
    rewrite (main_encode_error _ _ _ _ _ _ _ _ _ _ H1 H2 H3 H4 H5).
    unfold failed. now rewrite !append_assoc.
  - intros w data node first rest v b err H1 H2 H3 H4 H5 H6.
    rewrite (main_write_error _ _ _ _ _ _ _ _ _ _ _ H1 H2 H3 H4 H5 H6).
    unfold failed. now rewrite !append_assoc.
Qed.

(** X2, two runs: [a: .nan], which does not encode, and [a: 1] with
    standard output closed. *)
Lemma output_failures_reported_witness :
  main (Sample.finds Sample.nanDocument) Sample.Decode Sample.AppendFloat
    (Sample.start "a: .nan")
  = Ret (mkWorld (Ok "a: .nan") ""
           ("yaml_to_json: write json: "
              ++ "json: error calling MarshalJSON for type main.orderedMap: "
              ++ "json: unsupported value: NaN" ++ newline)
           None, 1%Z) /\
  main (Sample.finds Sample.firstDocument) Sample.Decode Sample.AppendFloat
    (mkWorld (Ok "a: 1") "" "" (Some "write /dev/stdout: broken pipe"))
  = Ret (mkWorld (Ok "a: 1") ""
           ("yaml_to_json: write json: write /dev/stdout: broken pipe" ++ newline)
           (Some "write /dev/stdout: broken pipe"), 1%Z).
Proof.
  split.
  - exact (proj1 (output_failures_reported (Sample.finds Sample.nanDocument)
                    Sample.Decode Sample.AppendFloat)
             (Sample.start "a: .nan") "a: .nan" Sample.nanDocument
             (Sample.mapping [ Sample.plain "!!str" "a"; Sample.plain "!!float" ".nan" ]) []
             (AOrderedMap (Build_orderedMap [ Build_mapEntry "a" (AFloat PrimFloat.nan) ]))
             ("json: error calling MarshalJSON for type main.orderedMap: "
                ++ "json: unsupported value: NaN")
             eq_refl eq_refl eq_refl eq_refl eq_refl).
  - exact (proj2 (output_failures_reported (Sample.finds Sample.firstDocument)
                    Sample.Decode Sample.AppendFloat)
             (mkWorld (Ok "a: 1") "" "" (Some "write /dev/stdout: broken pipe"))
             "a: 1" Sample.firstDocument
             (Sample.mapping [ Sample.plain "!!str" "a"; Sample.plain "!!int" "1" ]) []
             (AOrderedMap (Build_orderedMap [ Build_mapEntry "a" (AInt 1) ]))
             ("{" ++ text.quoted "a" ++ ":1}") "write /dev/stdout: broken pipe"
             eq_refl eq_refl eq_refl eq_refl eq_refl eq_refl).
Defined.

(** X3.  A run that ends normally has written to one stream only.  With
    the status 0, standard output received one text and a newline and
    standard error nothing; with the status 1, standard error received one
    line, [yaml_to_json: ] and a message of one of four kinds, and standard
    output nothing (a write that fails writes nothing, as [writeStdout] has
    it).  No other status occurs. *)
Theorem main_writes_to_one_stream
  (Unmarshal : string -> yaml.Node -> yaml.Node * option error)
  (Decode : yaml.Node -> result any) (AppendFloat : float -> ascii -> string)
  (w w' : World) (code : Z) :
  main Unmarshal Decode AppendFloat w = Ret (w', code) ->
  stdin w' = stdin w /\ stdoutErr w' = stdoutErr w /\
  ((code = 0%Z /\ stderr w' = stderr w /\
    exists b, stdout w' = stdout w ++ b ++ newline) \/
   (code = 1%Z /\ stdout w' = stdout w /\
    exists msg,
      stderr w' = stderr w ++ "yaml_to_json: " ++ msg ++ newline /\
      ((exists err, msg = "read stdin: " ++ err) \/
       (exists err, msg = "parse yaml: " ++ err) \/
       msg = "empty document" \/
       (exists err, msg = "write json: " ++ err)))).
Proof.
  intros Hmain. pose proof (main_course Unmarshal Decode AppendFloat w) as Hc.
  rewrite Hmain in Hc. remember (Ret (w', code)) as r eqn:Hr.
  destruct Hc; unfold failed in Hr; try discriminate Hr;
    injection Hr as <- <-; cbn [stdin stdout stderr stdoutErr];
    (split; [reflexivity|]); (split; [congruence|]).
  - right. split; [reflexivity|]. split; [reflexivity|].
    exists ("read stdin: " ++ err). split; [reflexivity|]. eauto.
  - right. split; [reflexivity|]. split; [reflexivity|].
    exists ("parse yaml: " ++ err). split; [reflexivity|]. eauto.
  - right. split; [reflexivity|]. split; [reflexivity|].
    exists "empty document". split; [reflexivity|]. auto.
  - right. split; [reflexivity|]. split; [reflexivity|].
    exists ("write json: " ++ err). split; [reflexivity|]. eauto 6.
  - right. split; [reflexivity|]. split; [reflexivity|].
    exists ("write json: " ++ err). split; [reflexivity|]. eauto 6.
  - left. split; [reflexivity|]. split; [reflexivity|]. eauto.
Qed.

(** X3, a run on the widget text: the status is 0 and nothing is written
    to standard error. *)
Lemma main_writes_to_one_stream_witness :
  let w := Sample.start Sample.widgetText in
  let w' := mkWorld (Ok Sample.widgetText) (Sample.widgetJSON ++ newline) "" None in
  main Sample.Unmarshal Sample.Decode Sample.AppendFloat w = Ret (w', 0%Z) /\
  stdin w' = stdin w /\ stdoutErr w' = stdoutErr w /\
  ((0%Z = 0%Z /\ stderr w' = stderr w /\
    exists b, stdout w' = stdout w ++ b ++ newline) \/
   (0%Z = 1%Z /\ stdout w' = stdout w /\
    exists msg,
      stderr w' = stderr w ++ "yaml_to_json: " ++ msg ++ newline /\
      ((exists err, msg = "read stdin: " ++ err) \/
       (exists err, msg = "parse yaml: " ++ err) \/
       msg = "empty document" \/
       (exists err, msg = "write json: " ++ err)))).
Proof.
  split; [reflexivity|].
  exact (main_writes_to_one_stream Sample.Unmarshal Sample.Decode Sample.AppendFloat
           (Sample.start Sample.widgetText)
           (mkWorld (Ok Sample.widgetText) (Sample.widgetJSON ++ newline) "" None) 0%Z
           eq_refl).
Defined.

(** X4.  Once the input is parsed and converted, the exit status is
    decided by the value and by standard output alone: 0 when every float
    of the value is finite and the write succeeds, 1 otherwise.  The values
    are those of [any]: null, booleans, integers, floats, strings, slices
    and mappings. *)
Theorem exit_status_decided
  (Unmarshal : string -> yaml.Node -> yaml.Node * option error)
  (Decode : yaml.Node -> result any) (AppendFloat : float -> ascii -> string)
  (w : World) (data : string) (node first : yaml.Node) (rest : list yaml.Node) (v : any) :
  stdin w = Ok data ->
  Unmarshal data yaml.zero = (node, None) ->
  yaml.Content node = first :: rest ->
  convertNode Decode first = Ret v ->
  exists w',
    main Unmarshal Decode AppendFloat w
    = Ret (w', if (value.finite v
                   && match stdoutErr w with None => true | Some _ => false end)%bool
               then 0%Z else 1%Z).
Proof.
  intros H1 H2 H3 H4.
  destruct (reflectValue AppendFloat false v) as [b|err] eqn:H5.
  - rewrite (proj1 (reflectValue_finite AppendFloat v false)) by eauto.
    destruct (stdoutErr w) as [err|] eqn:H6.
    + rewrite (main_write_error _ _ _ _ _ _ _ _ _ _ _ H1 H2 H3 H4 H5 H6). eexists. reflexivity.
    + rewrite (main_success _ _ _ _ _ _ _ _ _ _ H1 H2 H3 H4 H5 H6). eexists. reflexivity.
  - rewrite (main_encode_error _ _ _ _ _ _ _ _ _ _ H1 H2 H3 H4 H5).
    destruct (value.finite v) eqn:Hf.
    + apply (reflectValue_finite AppendFloat v false) in Hf as [b Hb]. congruence.
    + eexists. reflexivity.
Qed.

(** X4, a run: [a: .nan] gives the status 1. *)
Lemma exit_status_decided_witness :
  exists w',
    main (Sample.finds Sample.nanDocument) Sample.Decode Sample.AppendFloat
      (Sample.start "a: .nan")
    = Ret (w', 1%Z).
Proof.
  exact (exit_status_decided (Sample.finds Sample.nanDocument) Sample.Decode
           Sample.AppendFloat (Sample.start "a: .nan") "a: .nan" Sample.nanDocument
           (Sample.mapping [ Sample.plain "!!str" "a"; Sample.plain "!!float" ".nan" ]) []
           (AOrderedMap (Build_orderedMap [ Build_mapEntry "a" (AFloat PrimFloat.nan) ]))
           eq_refl eq_refl eq_refl eq_refl).
Defined.

(** ** Conversion *)

(** X5.  [convertNode] returns a value exactly when every mapping node it
    comes to has an even number of children, and panics otherwise.  The
    mapping nodes it does not come to (inside a key node, or in a later
    child of a document node) do not matter: a tree whose mapping nodes
    are all paired is converted, and so are others. *)
Theorem convertNode_returns_iff_reached_paired
  (Decode : yaml.Node -> result any) (n : yaml.Node) :
  ((exists v, convertNode Decode n = Ret v) <-> shape.reachedPaired n = true) /\
  ((exists msg, convertNode Decode n = Panic msg) <-> shape.reachedPaired n = false) /\
  (shape.paired n = true -> shape.reachedPaired n = true).
Proof.
  pose proof (convertNode_returns Decode n) as Hret.
  split; [exact Hret|]. split.
  - split.
    + intros [msg Hmsg]. destruct (shape.reachedPaired n); [|reflexivity].
      destruct (proj2 Hret eq_refl) as [v Hv]. congruence.
    + intros Hfalse. destruct (convertNode Decode n) as [v|msg] eqn:Hc; [|eauto].
      rewrite (proj1 Hret) in Hfalse by eauto. discriminate Hfalse.
  - intros Hp. apply Hret. now apply convertNode_paired.
Qed.

(** X5, two runs: a mapping whose key is a mapping without a value node is
    converted; a mapping without its last value node is not. *)
Lemma convertNode_returns_iff_reached_paired_witness :
  shape.paired Sample.oddKeyDocument = false /\
  (exists v, convertNode Sample.Decode Sample.oddKeyDocument = Ret v) /\
  (exists msg, convertNode Sample.Decode Sample.oddDocument = Panic msg).
Proof.
  split; [reflexivity|]. split.
  - exact (proj2 (proj1 (convertNode_returns_iff_reached_paired Sample.Decode
                           Sample.oddKeyDocument)) eq_refl).
  - exact (proj2 (proj1 (proj2 (convertNode_returns_iff_reached_paired Sample.Decode
                                  Sample.oddDocument))) eq_refl).
Defined.

(** X6.  [main] panics exactly when the input is read and parsed, the
    node has content, and the first child holds a mapping node with an odd
    number of children where [convertNode] comes to it.  With a parser
    whose mapping nodes always have their children in pairs, [main] ends
    with the exit status 0 or 1 on every input. *)
Theorem main_panics_only_in_conversion
  (Unmarshal : string -> yaml.Node -> yaml.Node * option error)
  (Decode : yaml.Node -> result any) (AppendFloat : float -> ascii -> string) :
  (forall w,
     (exists msg, main Unmarshal Decode AppendFloat w = Panic msg) <->
     exists data node first rest,
       stdin w = Ok data /\ Unmarshal data yaml.zero = (node, None) /\
       yaml.Content node = first :: rest /\ shape.reachedPaired first = false) /\
  ((forall data, shape.paired (fst (Unmarshal data yaml.zero)) = true) ->
   forall w,
     exists w' code,
       main Unmarshal Decode AppendFloat w = Ret (w', code) /\
       (code = 0%Z \/ code = 1%Z)).
Proof.
  assert (Hiff : forall w,
            (exists msg, main Unmarshal Decode AppendFloat w = Panic msg) <->
            exists data node first rest,
              stdin w = Ok data /\ Unmarshal data yaml.zero = (node, None) /\
              yaml.Content node = first :: rest /\ shape.reachedPaired first = false).
  { intros w. split.
    - intros [msg Hmain].
      pose proof (main_course Unmarshal Decode AppendFloat w) as Hc.
      rewrite Hmain in Hc. remember (Panic msg) as r eqn:Hr.
      destruct Hc; try discriminate Hr.
      exists data, node, first, rest. repeat (split; [assumption|]).
      destruct (shape.reachedPaired first) eqn:Hp; [|reflexivity].
      apply (convertNode_returns Decode) in Hp as [v Hv]. congruence.
    - intros (data & node & first & rest & H1 & H2 & H3 & Hp).
      destruct (convertNode Decode first) as [v|msg] eqn:Hc.
      + rewrite (proj1 (convertNode_returns Decode first)) in Hp by eauto.
        discriminate Hp.
      + exists msg. now apply (main_panic _ _ _ _ data node first rest). }
  split; [exact Hiff|].
  intros Hpaired w.
  pose proof (main_course Unmarshal Decode AppendFloat w) as Hc.
  destruct Hc as [err H1 | data node err H1 H2 | data node H1 H2 H3
                  | data node first rest msg H1 H2 H3 H4
                  | data node first rest v err H1 H2 H3 H4 H5
                  | data node first rest v b err H1 H2 H3 H4 H5 H6
                  | data node first rest v b H1 H2 H3 H4 H5 H6];
    try (unfold failed; eauto).
  exfalso.
  pose proof (Hpaired data) as Hp. rewrite H2 in Hp. cbn [fst] in Hp.
  destruct node as [kind style tag value content]. cbn [yaml.Content] in H3. subst content.
  apply paired_children in Hp. inversion Hp as [|? ? Hfirst _]; subst.
  destruct (convertNode_paired Decode first Hfirst) as [v Hv]. congruence.
Qed.

(** X6, two runs: a document whose mapping lost its last value node, and
    the widget text with the sample parser, whose documents are paired. *)
Lemma main_panics_only_in_conversion_witness :
  (exists msg,
     main (Sample.finds Sample.oddDocument) Sample.Decode Sample.AppendFloat
       (Sample.start "a: 1") = Panic msg) /\
  (exists w' code,
     main (Sample.finds Sample.widgetDocument) Sample.Decode Sample.AppendFloat
       (Sample.start Sample.widgetText) = Ret (w', code) /\
     (code = 0%Z \/ code = 1%Z)).
Proof.
  split.
  - apply (proj2 (proj1 (main_panics_only_in_conversion
                           (Sample.finds Sample.oddDocument)
                           Sample.Decode Sample.AppendFloat) (Sample.start "a: 1"))).
    exists "a: 1", Sample.oddDocument,
      (Sample.mapping
         [ Sample.plain "!!str" "a"; Sample.plain "!!int" "1"; Sample.plain "!!str" "b" ]),
      [].
    repeat split.
  - apply (proj2 (main_panics_only_in_conversion (Sample.finds Sample.widgetDocument)
                    Sample.Decode Sample.AppendFloat)).
    intros data. reflexivity.
Defined.

(** X7.  A sequence node gives a slice with one item for each child, in
    order, each the conversion of that child; the encoder writes the
    slice as [[], the texts of the items in order with commas between
    them, and []]; an empty sequence gives the empty slice, written [[]]
    and not [null]. *)
Theorem sequences_keep_length_and_order
  (Decode : yaml.Node -> result any) (AppendFloat : float -> ascii -> string) :
  (forall style tag value content v,
     convertNode Decode (yaml.mkNode yaml.SequenceNode style tag value content) = Ret v ->
     exists items,
       v = ASlice items /\
       Forall2 (fun child item => convertNode Decode child = Ret item) content items) /\
  (forall escapeHTML items b,
     reflectValue AppendFloat escapeHTML (ASlice items) = Ok b ->
     exists texts,
       Forall2 (fun item t => reflectValue AppendFloat escapeHTML item = Ok t) items texts /\
       b = text.arrayText texts) /\
  (forall escapeHTML style tag value,
     convertNode Decode (yaml.mkNode yaml.SequenceNode style tag value []) = Ret (ASlice []) /\
     reflectValue AppendFloat escapeHTML (ASlice []) = Ok "[]").
Proof.
  split; [|split].
  - intros style tag value content v. rewrite convertNode_unfold.
    cbn [N.eqb Pos.eqb yaml.SequenceNode yaml.MappingNode].
    destruct (sequenceLoop (convertNode Decode) content) as [items|] eqn:Hloop;
      [|discriminate].
    cbn [bind_outcome]. intros [= <-]. exists items. split; [reflexivity|].
    now apply sequenceLoop_ret.
  - intros escapeHTML items b. rewrite reflectValue_slice.
    destruct (arrayLoop _ 0 items "[") as [buf|] eqn:Hloop; [|discriminate].
    intros [= <-]. apply arrayLoop_ret in Hloop as [texts [H2 ->]]. eauto.
  - intros escapeHTML style tag value. split; reflexivity.
Qed.

(** X7, a run: the text of the slice of [a] and 2. *)
Lemma sequences_keep_length_and_order_witness :
  exists texts,
    Forall2 (fun item t => reflectValue Sample.AppendFloat false item = Ok t)
      [ AString "a"; AInt 2 ] texts /\
    "[" ++ text.quoted "a" ++ ",2]" = text.arrayText texts.
Proof.
  exact (proj1 (proj2 (sequences_keep_length_and_order Sample.Decode Sample.AppendFloat))
           false [ AString "a"; AInt 2 ] ("[" ++ text.quoted "a" ++ ",2]") eq_refl).
Defined.

(** X8.  [convertNode] hands to the decoder only the scalar nodes it
    comes to: value nodes of mappings, children of sequences and the first
    child of a document, at any depth.  Two decoders that agree on these
    nodes give the same result, whatever they do on key nodes and on
    every other node. *)
Theorem decoder_sees_reached_scalars_only
  (Decode1 Decode2 : yaml.Node -> result any) (n : yaml.Node) :
  (forall m, In m (shape.decoded n) -> yaml.Kind m = yaml.ScalarNode) /\
  ((forall m, In m (shape.decoded n) -> Decode1 m = Decode2 m) ->
   convertNode Decode1 n = convertNode Decode2 n).
Proof.
  split; [apply decoded_scalar | apply convertNode_decoded].
Qed.

(** X8, a run: a decoder that fails on the text [count], a key of the
    widget document, converts the document as the sample decoder does. *)
Lemma decoder_sees_reached_scalars_only_witness :
  Sample.DecodeButCount (Sample.plain "!!str" "count") = Err "yaml: cannot decode" /\
  Sample.Decode (Sample.plain "!!str" "count") = Ok (AString "count") /\
  convertNode Sample.Decode Sample.widgetDocument
  = convertNode Sample.DecodeButCount Sample.widgetDocument.
Proof.
  split; [reflexivity|]. split; [reflexivity|].
  apply (proj2 (decoder_sees_reached_scalars_only Sample.Decode Sample.DecodeButCount
                  Sample.widgetDocument)).
  intros m Hm. cbn in Hm.
  repeat (destruct Hm as [<-|Hm]; [reflexivity|]). destruct Hm.
Defined.

(** ** The encoder *)

(** X9.  [MarshalJSON] returns a text exactly when [json.Marshal] encodes
    the value of every entry: the text is then [{], the members in stored
    order with commas between them, and [}], [{}] for no entry.  It
    returns an error exactly when some value does not encode: the error
    of the first such entry as it is, and no text. *)
Theorem MarshalJSON_result (AppendFloat : float -> ascii -> string) (o : orderedMap) :
  (forall b,
     MarshalJSON AppendFloat o = Ok b <->
     exists texts,
       Forall2 (fun e t => Marshal AppendFloat (Value e) = Ok t) (Entries o) texts /\
       b = text.objectText (text.members (Entries o) texts)) /\
  (forall err,
     MarshalJSON AppendFloat o = Err err <->
     exists pre entry post,
       Entries o = (pre ++ entry :: post)%list /\
       Forall (fun e => exists t, Marshal AppendFloat (Value e) = Ok t) pre /\
       Marshal AppendFloat (Value entry) = Err err).
Proof.
  split.
  - intros b. split.
    + apply MarshalJSON_with_ret.
    + intros (texts & H2 & ->). now apply MarshalJSON_with_ok.
  - intros err. apply MarshalJSON_with_first_error.
Qed.

(** X9, two runs: an object of two entries, and one whose second value is
    an infinity. *)
Lemma MarshalJSON_result_witness :
  MarshalJSON Sample.AppendFloat
    (Build_orderedMap [ Build_mapEntry "a" (AInt 1); Build_mapEntry "b" ANil ])
  = Ok ("{" ++ text.quoted "a" ++ ":1," ++ text.quoted "b" ++ ":null}") /\
  MarshalJSON Sample.AppendFloat
    (Build_orderedMap
       [ Build_mapEntry "a" (AInt 1); Build_mapEntry "b" (AFloat PrimFloat.infinity);
         Build_mapEntry "c" (AFloat PrimFloat.nan) ])
  = Err "json: unsupported value: +Inf".
Proof.
  split.
  - apply (proj2 (proj1 (MarshalJSON_result Sample.AppendFloat
                           (Build_orderedMap
                              [ Build_mapEntry "a" (AInt 1); Build_mapEntry "b" ANil ])) _)).
    exists [ "1"; "null" ]. split; [|reflexivity].
    repeat constructor.
  - apply (proj2 (proj2 (MarshalJSON_result Sample.AppendFloat
                           (Build_orderedMap
                              [ Build_mapEntry "a" (AInt 1);
                                Build_mapEntry "b" (AFloat PrimFloat.infinity);
                                Build_mapEntry "c" (AFloat PrimFloat.nan) ])) _)).
    exists [ Build_mapEntry "a" (AInt 1) ], (Build_mapEntry "b" (AFloat PrimFloat.infinity)),
      [ Build_mapEntry "c" (AFloat PrimFloat.nan) ].
    split; [reflexivity|]. split; [|reflexivity].
    constructor; [|constructor]. exists "1". reflexivity.
Defined.



(** X11.  The encoder writes what [MarshalJSON] returned as it is: the
    compaction finds nothing to remove or to rewrite in it.  So the
    setting [SetEscapeHTML] has no effect on a mapping: the encoder gives
    the same result, text or error, with the setting on or off. *)
Theorem mappings_ignore_encoder_setting
  (AppendFloat : float -> ascii -> string)
  (AppendFloat_bare : forall f fmt, text.bare (AppendFloat f fmt) = true) :
  (forall escapeHTML o b,
     MarshalJSON AppendFloat o = Ok b ->
     reflectValue AppendFloat escapeHTML (AOrderedMap o) = Ok b) /\
  (forall o,
     reflectValue AppendFloat false (AOrderedMap o)
     = reflectValue AppendFloat true (AOrderedMap o)).
Proof.
  assert (H : forall escapeHTML o b,
             MarshalJSON AppendFloat o = Ok b ->
             reflectValue AppendFloat escapeHTML (AOrderedMap o) = Ok b).
  { intros escapeHTML o b Hm. rewrite reflectValue_map, Hm.
    now rewrite (compacted_appendCompact _ _
                   (MarshalJSON_compacted _ AppendFloat_bare _ _ Hm)). }
  split; [exact H|].
  intros o. destruct (MarshalJSON AppendFloat o) as [b|err] eqn:Hm.
  - now rewrite !(H _ o b Hm).
  - rewrite !reflectValue_map, Hm. reflexivity.
Qed.

(** X11, a run: the mapping [a: <b> & c] with the setting off and on. *)
Lemma mappings_ignore_encoder_setting_witness :
  (forall f fmt, text.bare (Sample.AppendFloat f fmt) = true) /\
  reflectValue Sample.AppendFloat false
    (AOrderedMap (Build_orderedMap [ Build_mapEntry "a" (AString "<b> & c") ]))
  = reflectValue Sample.AppendFloat true
      (AOrderedMap (Build_orderedMap [ Build_mapEntry "a" (AString "<b> & c") ])).
Proof.
  split; [exact Sample_AppendFloat_bare|].
  exact (proj2 (mappings_ignore_encoder_setting Sample.AppendFloat
                  Sample_AppendFloat_bare) _).
Defined.

(** X12.  The text the encoder writes holds no control character (no byte
    below the space), whatever the strings and the keys of the value
    hold; so what a successful run adds to standard output is one line of
    such bytes and the newline that ends it.  The float printer is
    assumed to write bare bytes without control characters. *)
Theorem output_has_no_control_characters
  (Unmarshal : string -> yaml.Node -> yaml.Node * option error)
  (Decode : yaml.Node -> result any) (AppendFloat : float -> ascii -> string)
  (AppendFloat_bare : forall f fmt, text.bare (AppendFloat f fmt) = true)
  (AppendFloat_controlFree : forall f fmt, text.controlFree (AppendFloat f fmt) = true) :
  (forall escapeHTML v b,
     reflectValue AppendFloat escapeHTML v = Ok b -> text.controlFree b = true) /\
  (forall w w',
     main Unmarshal Decode AppendFloat w = Ret (w', 0%Z) ->
     exists b, stdout w' = stdout w ++ b ++ newline /\ text.controlFree b = true).
Proof.
  split.
  - intros escapeHTML v b. now apply reflectValue_controlFree.
  - intros w w' Hmain.
    pose proof (main_course Unmarshal Decode AppendFloat w) as Hc.
    rewrite Hmain in Hc. remember (Ret (w', 0%Z)) as r eqn:Hr.
    destruct Hc; unfold failed in Hr; try discriminate Hr.
    injection Hr as <-. cbn [stdout]. exists b. split; [reflexivity|].
    eapply reflectValue_controlFree; eassumption.
Qed.

(** X12, a run: a key and a string with a tab and a line feed in them. *)
Lemma output_has_no_control_characters_witness :
  (forall f fmt, text.bare (Sample.AppendFloat f fmt) = true) /\
  (forall f fmt, text.controlFree (Sample.AppendFloat f fmt) = true) /\
  text.controlFree (String "009" "k") = false /\
  reflectValue Sample.AppendFloat false
    (AOrderedMap (Build_orderedMap
       [ Build_mapEntry (String "009" "k") (AString (String "010" "v")) ]))
  = Ok ("{" ++ text.quoted "\tk" ++ ":" ++ text.quoted "\nv" ++ "}") /\
  text.controlFree ("{" ++ text.quoted "\tk" ++ ":" ++ text.quoted "\nv" ++ "}") = true.
Proof.
  split; [exact Sample_AppendFloat_bare|].
  split; [exact Sample_AppendFloat_controlFree|].
  split; [reflexivity|]. split; [reflexivity|].
  exact (proj1 (output_has_no_control_characters Sample.Unmarshal Sample.Decode
                  Sample.AppendFloat Sample_AppendFloat_bare
                  Sample_AppendFloat_controlFree)
           false
           (AOrderedMap (Build_orderedMap
              [ Build_mapEntry (String "009" "k") (AString (String "010" "v")) ]))
           _ eq_refl).
Defined.
